(** * YouTube search-results scraper: parser, record store and report renderer

    A shallow embedding of
      - [youtube/data_classes/video.py]            (the [Video] dataclass),
      - [youtube/search_results_json_parser.py]    ([SearchResultsJSONParser]),
      - [youtube/video_data_manager.py]            ([VideoDataManager]),
    together with the Python built-ins these files rely on (subscripting,
    [int], [str], dictionary keys).

    Conventions.
      - A document is what [json.loads] returns: [None], booleans, integers,
        floats, strings, lists, and dictionaries with string keys.  A
        dictionary is an association list in insertion order; [json.loads]
        never produces the same key twice ([wf_json]).
      - A string is a sequence of characters with code points below 256.
      - Exceptions are explicit: a computation returns [Ok a] or [Raise e].
      - [print] appends a line to an explicit standard output.
      - Writing a file can fail: whether [open] or the write fails is
        decided by the file system, which is a parameter ([FileSystem]).
      - Interpreter resource limits (recursion depth, the digit limit of
        [int]) are outside the model. *)

From Stdlib Require Import ZArith List String Ascii Bool Arith Lia.
From Stdlib Require Import DecimalString.
From Stdlib Require DecimalPos.
Import ListNotations.

Local Open Scope list_scope.

Infix "+++" := String.append (right associativity, at level 60).

(** ** Python values *)

(** A float is NaN, an infinity, or the finite number [m * 2^e]. *)
Inductive pyfloat : Type :=
| FNan
| FInf (negative : bool)
| FFin (m e : Z).

Unset Elimination Schemes.
Inductive json : Type :=
| JNull
| JBool (b : bool)
| JInt (z : Z)
| JFloat (f : pyfloat)
| JStr (s : string)
| JList (l : list json)
| JDict (d : list (string * json)).
Set Elimination Schemes.

(** Structural induction that reaches the elements of lists and the values
    of dictionaries. *)
Section JsonInd.
Variable P : json -> Prop.
Hypothesis HNull : P JNull.
Hypothesis HBool : forall b, P (JBool b).
Hypothesis HInt : forall z, P (JInt z).
Hypothesis HFloat : forall f, P (JFloat f).
Hypothesis HStr : forall s, P (JStr s).
Hypothesis HList : forall l, Forall P l -> P (JList l).
Hypothesis HDict : forall d, Forall (fun kv => P (snd kv)) d -> P (JDict d).

Fixpoint json_ind (v : json) : P v :=
  match v with
  | JNull => HNull
  | JBool b => HBool b
  | JInt z => HInt z
  | JFloat f => HFloat f
  | JStr s => HStr s
  | JList l =>
      HList l
        ((fix elems (l : list json) : Forall P l :=
            match l with
            | [] => Forall_nil P
            | x :: t => Forall_cons x (json_ind x) (elems t)
            end) l)
  | JDict d =>
      HDict d
        ((fix entries (d : list (string * json))
            : Forall (fun kv => P (snd kv)) d :=
            match d with
            | [] => Forall_nil _
            | kv :: t =>
                Forall_cons (P := fun kv => P (snd kv)) kv
                  (json_ind (snd kv)) (entries t)
            end) d)
  end.
End JsonInd.

(** Keys of a dictionary are pairwise distinct, at every level. *)
Fixpoint distinct (ks : list string) : bool :=
  match ks with
  | [] => true
  | k :: t => negb (existsb (String.eqb k) t) && distinct t
  end.

Fixpoint wf_json (v : json) : bool :=
  match v with
  | JList l => forallb wf_json l
  | JDict d =>
      distinct (map fst d)
      && (fix entries (d : list (string * json)) : bool :=
            match d with
            | [] => true
            | (_, x) :: t => wf_json x && entries t
            end) d
  | _ => true
  end.

(** ** Exceptions and results *)

Inductive exn : Type :=
| KeyError (key : json)
| IndexError
| TypeError
| ValueError
| OverflowError
| StopIteration
| OSError.

Inductive result (A : Type) : Type :=
| Ok (a : A)
| Raise (e : exn).
Arguments Ok {A} a.
Arguments Raise {A} e.

(** ** Monads: pure fallible code, and methods of an object that print *)

Class Monad (m : Type -> Type) : Type := {
  ret : forall {A}, A -> m A;
  bind : forall {A B}, m A -> (A -> m B) -> m B
}.

Notation "x <- c ;; k" := (bind c (fun x => k))
  (at level 61, c at next level, right associativity).
Notation "c ;;; k" := (bind c (fun _ => k))
  (at level 61, right associativity).

#[export] Instance result_Monad : Monad result := {
  ret A a := Ok a;
  bind A B c k := match c with Ok a => k a | Raise e => Raise e end
}.

(** One line written by [print]: a formatted message, or an exception
    object ([print(e)] writes [str(e)]). *)
Inductive line : Type :=
| Text (s : string)
| ExnText (e : exn).

(** A method runs on the object [self], the standard output and the files
    written so far, and leaves them changed even when it raises. *)
Record world (S : Type) : Type := mkWorld {
  self : S;
  stdout : list line;
  files : list (string * string)
}.
Arguments mkWorld {S} self stdout files.
Arguments self {S} w.
Arguments stdout {S} w.
Arguments files {S} w.

Definition M (S A : Type) : Type := world S -> world S * result A.

#[export] Instance M_Monad (S : Type) : Monad (M S) := {
  ret A a := fun w => (w, Ok a);
  bind A B c k := fun w =>
    match c w with
    | (w', Ok a) => k a w'
    | (w', Raise e) => (w', Raise e)
    end
}.

Definition lift {S A} (r : result A) : M S A := fun w => (w, r).

Definition print {S} (l : line) : M S unit :=
  fun w => (mkWorld (self w) (stdout w ++ [l]) (files w), Ok tt).

Definition get_self {S} : M S S := fun w => (w, Ok (self w)).

Definition set_self {S} (s : S) : M S unit :=
  fun w => (mkWorld s (stdout w) (files w), Ok tt).

(** How [with open(filename, "w") as f: f.write(text)] can end: the text
    is stored; or [open] raises (a missing directory, a directory under
    that name, no permission: [OSError]; a NUL in the name: [ValueError])
    and nothing is written; or the file is opened, hence emptied, and the
    write fails, leaving [kept] in it. *)
Inductive write_outcome : Type :=
| Stored
| OpenFails (e : exn)
| WriteFails (e : exn) (kept : string).

(** The file system decides, from the name, the text and what was written
    before. *)
Class FileSystem : Type := {
  fs_write : string -> string -> list (string * string) -> write_outcome
}.

(** [files] holds, for every name a file was opened under, the text last
    written under that name. *)
Definition put_file (filename text : string) (files : list (string * string))
  : list (string * string) :=
  (filename, text)
    :: filter (fun f => negb (String.eqb (fst f) filename)) files.

(** [with open(filename, "w") as f: f.write(text)] *)
Definition write_file {F : FileSystem} {S} (filename text : string)
  : M S unit :=
  fun w =>
    match fs_write filename text (files w) with
    | Stored =>
        (mkWorld (self w) (stdout w) (put_file filename text (files w)),
         Ok tt)
    | OpenFails e => (w, Raise e)
    | WriteFails e kept =>
        (mkWorld (self w) (stdout w) (put_file filename kept (files w)),
         Raise e)
    end.

(** [try: body  except ...: ...]: [handlers e] is the clause that catches
    [e], if there is one; otherwise [e] propagates. *)
Definition try_except {S A} (body : M S A) (handlers : exn -> option (M S A))
  : M S A :=
  fun w =>
    match body w with
    | (w', Raise e) =>
        match handlers e with
        | Some handler => handler w'
        | None => (w', Raise e)
        end
    | done => done
    end.

(** [for x in xs: body(x)] *)
Fixpoint for_each {S A} (xs : list A) (body : A -> M S unit) : M S unit :=
  match xs with
  | [] => ret tt
  | x :: t => body x ;;; for_each t body
  end.

(** ** Built-ins *)

(** [d[k]] on the association list of a dictionary. *)
Fixpoint dict_get (k : string) (d : list (string * json)) : option json :=
  match d with
  | [] => None
  | (k', x) :: t => if String.eqb k' k then Some x else dict_get k t
  end.

(** A subscript is a string key or a non-negative integer index. *)
Inductive subscript : Type :=
| Key (k : string)
| Index (i : nat).

(** [v[s]].  A dictionary of a document has string keys only, so an integer
    subscript on it is a [KeyError]; a string subscript on anything but a
    dictionary is a [TypeError]. *)
Definition getitem (v : json) (s : subscript) : result json :=
  match v, s with
  | JDict d, Key k =>
      match dict_get k d with
      | Some x => Ok x
      | None => Raise (KeyError (JStr k))
      end
  | JDict _, Index i => Raise (KeyError (JInt (Z.of_nat i)))
  | JList l, Index i =>
      match nth_error l i with
      | Some x => Ok x
      | None => Raise IndexError
      end
  | JStr s, Index i =>
      match String.get i s with
      | Some c => Ok (JStr (String c EmptyString))
      | None => Raise IndexError
      end
  | _, _ => Raise TypeError
  end.

(** [v[s1][s2]...], left to right. *)
Fixpoint get_path (v : json) (p : list subscript) : result json :=
  match p with
  | [] => Ok v
  | s :: p' => x <- getitem v s ;; get_path x p'
  end.

(** *** [int] *)

Definition is_space (c : ascii) : bool :=
  let n := nat_of_ascii c in
  ((9 <=? n) && (n <=? 13)) || (n =? 32) || (n =? 133) || (n =? 160).

Definition digit_of (c : ascii) : option Z :=
  let n := nat_of_ascii c in
  if (48 <=? n) && (n <=? 57) then Some (Z.of_nat (n - 48)) else None.

Fixpoint lstrip (cs : list ascii) : list ascii :=
  match cs with
  | c :: t => if is_space c then lstrip t else cs
  | [] => []
  end.

Definition strip (cs : list ascii) : list ascii :=
  rev (lstrip (rev (lstrip cs))).

(** Decimal digits, with single underscores allowed between two digits. *)
Fixpoint digits (acc : Z) (after_digit : bool) (cs : list ascii) : option Z :=
  match cs with
  | [] => if after_digit then Some acc else None
  | c :: t =>
      match digit_of c with
      | Some d => digits (10 * acc + d) true t
      | None =>
          if Ascii.eqb c "_"%char && after_digit
          then digits acc false t
          else None
      end
  end.

Definition int_of_str (s : string) : result Z :=
  let body :=
    match strip (list_ascii_of_string s) with
    | c :: t =>
        if Ascii.eqb c "-"%char then option_map Z.opp (digits 0 false t)
        else if Ascii.eqb c "+"%char then digits 0 false t
        else digits 0 false (c :: t)
    | [] => None
    end in
  match body with
  | Some z => Ok z
  | None => Raise ValueError
  end.

(** [int(v)]: truncation toward zero for a float. *)
Definition py_int (v : json) : result Z :=
  match v with
  | JBool b => Ok (if b then 1 else 0)%Z
  | JInt z => Ok z
  | JFloat FNan => Raise ValueError
  | JFloat (FInf _) => Raise OverflowError
  | JFloat (FFin m e) =>
      Ok (if (0 <=? e)%Z then m * 2 ^ e else Z.quot m (2 ^ (- e)))%Z
  | JStr s => int_of_str s
  | JNull | JList _ | JDict _ => Raise TypeError
  end.

(** *** [str] *)

(** The text of a float, a list or a dictionary is left to the
    interpreter. *)
Class Repr : Type := { repr_compound : json -> string }.

Definition str_of_Z (z : Z) : string := NilZero.string_of_int (Z.to_int z).

Definition py_str {R : Repr} (v : json) : string :=
  match v with
  | JStr s => s
  | JNull => "None"
  | JBool true => "True"
  | JBool false => "False"
  | JInt z => str_of_Z z
  | _ => repr_compound v
  end.

(** *** Dictionary keys *)

(** What a dictionary compares when it looks a key up: equal keys have the
    same [hkey].  Numbers compare by value across [bool], [int] and [float];
    a finite number is kept as [m * 2^e] with [m] odd (or [0 * 2^0]).
    [json.loads] returns one and the same NaN object every time. *)
Inductive hkey : Type :=
| KNone
| KStr (s : string)
| KNum (m e : Z)
| KInf (negative : bool)
| KNan.

Fixpoint odd_part (p : positive) (e : Z) : positive * Z :=
  match p with
  | xO p' => odd_part p' (e + 1)%Z
  | _ => (p, e)
  end.

Definition num_key (m e : Z) : hkey :=
  match m with
  | Z0 => KNum 0 0
  | Zpos p => let (q, e') := odd_part p e in KNum (Zpos q) e'
  | Zneg p => let (q, e') := odd_part p e in KNum (Zneg q) e'
  end.

(** [None] for an unhashable value (a list or a dictionary). *)
Definition key_of (v : json) : option hkey :=
  match v with
  | JNull => Some KNone
  | JBool b => Some (num_key (if b then 1 else 0) 0)
  | JInt z => Some (num_key z 0)
  | JFloat FNan => Some KNan
  | JFloat (FInf n) => Some (KInf n)
  | JFloat (FFin m e) => Some (num_key m e)
  | JStr s => Some (KStr s)
  | JList _ | JDict _ => None
  end.

Definition hkey_eqb (a b : hkey) : bool :=
  match a, b with
  | KNone, KNone => true
  | KStr s, KStr t => String.eqb s t
  | KNum m e, KNum m' e' => (m =? m')%Z && (e =? e')%Z
  | KInf n, KInf n' => Bool.eqb n n'
  | KNan, KNan => true
  | _, _ => false
  end.

(** *** Truth values *)

(** What [if v:] tests: [None], [False], zero, and the empty string, list
    and dictionary are false; NaN and the infinities are true. *)
Definition truthy (v : json) : bool :=
  match v with
  | JNull => false
  | JBool b => b
  | JInt z => negb (z =? 0)%Z
  | JFloat (FFin m _) => negb (m =? 0)%Z
  | JFloat _ => true
  | JStr EmptyString => false
  | JStr _ => true
  | JList [] => false
  | JList _ => true
  | JDict [] => false
  | JDict _ => true
  end.

(** *** [json.dump] *)

(** The text [json.dump(obj, fob, indent=4)] writes for a document is left
    to the library. *)
Class Dump : Type := { json_dump : json -> string }.

Local Open Scope string_scope.
Local Open Scope list_scope.

Definition nl : string := String (ascii_of_nat 10) EmptyString.

(** ["sep".join(parts)] *)
Fixpoint py_join (sep : string) (parts : list string) : string :=
  match parts with
  | [] => ""
  | [p] => p
  | p :: rest => p +++ sep +++ py_join sep rest
  end.

(** ** [youtube/data_classes/video.py] *)

(** The dataclass annotates every field [str]; nothing enforces it, so a
    field holds whatever value the caller passed. *)
Record Video : Type := new_Video {
  video_id : json;
  video_url : json;
  thumbnail_url : json;
  title : json;
  length : json;
  channel : json;
  channel_url : json;
  channel_thumbnail_url : json;
  uploaded_on : json;
  view_count_text : json
}.

(** [Video.__str__] *)
Definition Video_str {R : Repr} (v : Video) : string :=
  "[" +++ py_str (video_id v) +++ "] " +++ py_str (title v)
  +++ " (" +++ py_str (length v) +++ ") - " +++ py_str (view_count_text v)
  +++ nl
  +++ "by: " +++ py_str (channel v) +++ " - uploaded "
  +++ py_str (uploaded_on v) +++ " - " +++ py_str (video_url v)
  +++ nl.

(** [f"https://www.youtube.com/watch?v={video_id}"] *)
Definition watch_url {R : Repr} (video_id : json) : json :=
  JStr ("https://www.youtube.com/watch?v=" +++ py_str video_id).

(** ** [youtube/search_results_json_parser.py] *)

Module SearchResultsJSONParser.

Record t : Type := new {
  _json : json;
  _videos : list Video
}.

(** The sequence of values the generator yields.  Only a dictionary has
    [items]; the loop over a list value calls the generator on every
    element, and that call yields nothing unless the element is a
    dictionary. *)
Fixpoint _gen_dict_extract (key : string) (var : json) : list json :=
  match var with
  | JDict d =>
      (fix items (d : list (string * json)) : list json :=
         match d with
         | [] => []
         | (k, v) :: rest =>
             (if String.eqb k key then [v] else [])
             ++ match v with
                | JDict _ => _gen_dict_extract key v
                | JList l =>
                    (fix elements (l : list json) : list json :=
                       match l with
                       | [] => []
                       | d :: l' => _gen_dict_extract key d ++ elements l'
                       end) l
                | _ => []
                end
             ++ items rest
         end) d
  | _ => []
  end.

(** The arguments of [Video(...)], evaluated left to right. *)
Definition read_video {R : Repr} (video video_id : json) : result Video :=
  let video_url := watch_url video_id in
  thumbnail_url <-
    get_path video [Key "thumbnail"; Key "thumbnails"; Index 0; Key "url"] ;;
  title <- get_path video [Key "title"; Key "runs"; Index 0; Key "text"] ;;
  length <-
    get_path video [Key "lengthText"; Key "runs"; Index 0; Key "text"] ;;
  channel <-
    get_path video [Key "longBylineText"; Key "runs"; Index 0; Key "text"] ;;
  channel_url <-
    get_path video
      [Key "longBylineText"; Key "runs"; Index 0; Key "navigationEndpoint";
       Key "commandMetadata"; Key "webCommandMetadata"; Key "url"] ;;
  channel_thumbnail_url <-
    get_path video
      [Key "channelThumbnail"; Key "thumbnails"; Index 0; Key "url"] ;;
  uploaded_on <-
    get_path video [Key "publishedTimeText"; Key "runs"; Index 0; Key "text"] ;;
  view_count_text <-
    get_path video [Key "viewCountText"; Key "runs"; Index 0; Key "text"] ;;
  ret (new_Video video_id video_url thumbnail_url title length channel
         channel_url channel_thumbnail_url uploaded_on view_count_text).

(** [self._videos.append(v)] *)
Definition append_video (v : Video) : M t unit :=
  p <- get_self ;; set_self (new (_json p) (_videos p ++ [v])).

(** The body of the loop of [parse_video_results]. *)
Definition parse_video {R : Repr} (video : json) : M t unit :=
  video_id <- lift (getitem video (Key "videoId")) ;;
  try_except
    (v <- lift (read_video video video_id) ;; append_video v)
    (fun e =>
       match e with
       | KeyError _ =>
           Some (print (Text ("KeyError for video with ID "
                              +++ py_str video_id +++ ".")) ;;;
                 print (ExnText e))
       | _ => None
       end).

Definition parse_video_results {R : Repr} (results_json : json) : M t unit :=
  p <- get_self ;;
  set_self (new results_json (_videos p)) ;;;
  for_each (_gen_dict_extract "compactVideoRenderer" results_json)
    parse_video.

(** [__init__]: the object the constructor leaves behind. *)
Definition init {R : Repr} (results_json : json) : M t unit :=
  set_self (new results_json []) ;;;
  match results_json with
  | JNull => ret tt
  | _ => parse_video_results results_json
  end.

Definition get_estimated_results_count : M t Z :=
  p <- get_self ;;
  x <- lift (getitem (_json p) (Key "estimatedResults")) ;;
  lift (py_int x).

Definition get_video_results : M t (list Video) :=
  p <- get_self ;; ret (_videos p).

(** [next(it)] on the generator. *)
Definition next (it : list json) : result json :=
  match it with
  | x :: _ => Ok x
  | [] => Raise StopIteration
  end.

(** Returns [Some (token, params)] for the tuple and [None] for [None]. *)
Definition get_next_continuation_data : M t (option (json * json)) :=
  p <- get_self ;;
  let continuation_data_generator :=
    _gen_dict_extract "nextContinuationData" (_json p) in
  let could_not e :=
    print (Text "Error: Could not get continuation data.") ;;;
    print (ExnText e) ;;;
    ret None in
  try_except
    (continuation_data <- lift (next continuation_data_generator) ;;
     continuation <- lift (getitem continuation_data (Key "continuation")) ;;
     click <- lift (getitem continuation_data (Key "clickTrackingParams")) ;;
     ret (Some (continuation, click)))
    (fun e =>
       match e with
       | StopIteration => Some (could_not e)
       | KeyError _ => Some (could_not e)
       | _ => None
       end).

Definition print_results_json {R : Repr} : M t unit :=
  p <- get_self ;; print (Text (py_str (_json p))).

Definition write_results_json_to_file {D : Dump} {F : FileSystem}
    (filename : string) : M t unit :=
  p <- get_self ;; write_file filename (json_dump (_json p)).

Definition default_results_filename : string := "debug_result_json.json".

End SearchResultsJSONParser.

(** ** [youtube/video_data_manager.py] *)

Module VideoDataManager.

(** [_videos] is a dictionary from video ID to [Video]; a Python
    dictionary enumerates its entries in the order the keys were first
    inserted, so it is the list of its entries in that order. *)
Record t : Type := new {
  _videos : list (json * Video)
}.

Definition has_key (h : hkey) (entry : json * Video) : bool :=
  match key_of (fst entry) with
  | Some h' => hkey_eqb h h'
  | None => false
  end.

(** [k in d]; hashing a list or a dictionary is a [TypeError]. *)
Definition contains (d : list (json * Video)) (k : json) : result bool :=
  match key_of k with
  | Some h => Ok (existsb (has_key h) d)
  | None => Raise TypeError
  end.

(** [d[k]] *)
Definition lookup (d : list (json * Video)) (k : json) : result Video :=
  match key_of k with
  | Some h =>
      match find (has_key h) d with
      | Some entry => Ok (snd entry)
      | None => Raise (KeyError k)
      end
  | None => Raise TypeError
  end.

(** [__init__] *)
Definition init : M t unit := set_self (new []).

Definition already {R : Repr} (video_id : json) : line :=
  Text ("Video '" +++ py_str video_id +++ "' already in dict, not adding.").

Definition add_video {R : Repr}
    (video_id thumbnail_url title length channel channel_url
     channel_thumbnail_url uploaded_on view_count_text : json) : M t unit :=
  m <- get_self ;;
  present <- lift (contains (_videos m) video_id) ;;
  if present : bool then print (already video_id)
  else
    set_self
      (new (_videos m
            ++ [(video_id,
                 new_Video video_id (watch_url video_id) thumbnail_url title
                   length channel channel_url channel_thumbnail_url
                   uploaded_on view_count_text)])).

Definition add_video_data_object {R : Repr} (video : Video) : M t unit :=
  let video_id := video_id video in
  m <- get_self ;;
  present <- lift (contains (_videos m) video_id) ;;
  if present : bool then print (already video_id)
  else set_self (new (_videos m ++ [(video_id, video)])).

Definition add_videos {R : Repr} (videos : list Video) : M t unit :=
  for_each videos add_video_data_object.

Definition get_video {R : Repr} (video_id : json) : M t (option Video) :=
  m <- get_self ;;
  try_except
    (v <- lift (lookup (_videos m) video_id) ;; ret (Some v))
    (fun e =>
       match e with
       | KeyError _ =>
           Some (print (Text ("No video with ID '" +++ py_str video_id
                              +++ "' found in search results.")) ;;;
                 print (ExnText e) ;;;
                 ret None)
       | _ => None
       end).

(** [self._videos.values()], as the sequence it enumerates. *)
Definition values (m : t) : list Video := map snd (_videos m).

Definition get_videos : M t (list Video) :=
  m <- get_self ;; ret (values m).

(** The loop of [print_videos], from the current value of [index]. *)
Fixpoint print_from {R : Repr} (index : Z) (videos : list Video)
  : M t unit :=
  match videos with
  | [] => ret tt
  | video :: rest =>
      print (Text (str_of_Z index +++ ". " +++ Video_str video)) ;;;
      print_from (index + 1)%Z rest
  end.

Definition print_videos {R : Repr} : M t unit :=
  m <- get_self ;; print_from 1%Z (values m).

(** The three strings appended for one video. *)
Definition markdown_of {R : Repr} (video : Video) : list string :=
  [ "![thumbnail preview](" +++ py_str (thumbnail_url video) +++ ")" +++ nl;
    "[[" +++ py_str (video_id video) +++ "] " +++ py_str (title video)
    +++ "](" +++ py_str (video_url video) +++ ") ("
    +++ py_str (length video) +++ ") - "
    +++ py_str (view_count_text video) +++ "  ";
    "![channel thumbnail preview]("
    +++ py_str (channel_thumbnail_url video) +++ ") "
    +++ py_str (channel video) +++ " - uploaded "
    +++ py_str (uploaded_on video) +++ nl +++ nl +++ "- - -" +++ nl ].

Definition markdown_contents {R : Repr} (videos : list Video)
  : list string :=
  ("# Search Results Summary" +++ nl +++ nl) :: flat_map markdown_of videos.

Definition write_videos_to_markdown_file {R : Repr} {F : FileSystem}
    (filename : string) : M t unit :=
  m <- get_self ;;
  write_file filename (py_join nl (markdown_contents (values m))).

Definition default_filename : string := "yt_search_results.md".

End VideoDataManager.

(** ** [youtube/search_results_scraper.py] *)

Module search_results_scraper.

(** The value of [search_url] in [get_json_for_search], that is, the URL
    the function requests.  The request itself and the processing of the
    HTML it returns belong to libraries and are not modelled. *)
Definition search_url {R : Repr}
    (query continuation_token clicking_param_token : json)
    (sort_by_recent use_mobile : bool) : string :=
  let base_url :=
    if use_mobile then "https://m.youtube.com/results"
    else "https://www.youtube.com/results" in
  let search_query_param := "search_query=" +++ py_str query in
  let filter_by_upload_date_param := "sp=CAI%253D" in
  let ctoken_param := "ctoken=" +++ py_str continuation_token in
  let continuation_param := "continuation=" +++ py_str continuation_token in
  let itct_param := "itct=" +++ py_str clicking_param_token in
  if truthy continuation_token && truthy clicking_param_token
  then
    base_url +++ "?"
    +++ py_join "&"
          [search_query_param; filter_by_upload_date_param; ctoken_param;
           continuation_param; itct_param]
  else
    base_url +++ "?"
    +++ py_join "&" [search_query_param; filter_by_upload_date_param].

End search_results_scraper.

(** ** Reference definitions for the properties below *)

(** *** Deep-key extraction *)

Definition is_dict (v : json) : bool :=
  match v with JDict _ => true | _ => false end.

(** The traversal as a walk over maps, sequences and scalars: the entries
    of a map in stored order; at an entry, first the value if the key
    matches, then whatever lies inside the value; the elements of a
    sequence in index order, maps only. *)
Fixpoint dfs_occurrences (key : string) (var : json) : list json :=
  match var with
  | JDict d =>
      flat_map
        (fun kv : string * json =>
           let (k, v) := kv in
           (if String.eqb k key then [v] else [])
           ++ match v with
              | JDict _ => dfs_occurrences key v
              | JList l =>
                  flat_map
                    (fun e =>
                       match e with
                       | JDict _ => dfs_occurrences key e
                       | _ => []
                       end) l
              | _ => []
              end) d
  | _ => []
  end.

(** [stored_at n key var x]: [x] is stored under [key] in a map that lies
    [n] maps below the map [var], going down through map values and
    through maps that are elements of a sequence stored as a map value. *)
Inductive stored_at (key : string) : nat -> json -> json -> Prop :=
| stored_here d x :
    In (key, x) d -> stored_at key 0 (JDict d) x
| stored_in_value d k d' n x :
    In (k, JDict d') d ->
    stored_at key n (JDict d') x ->
    stored_at key (S n) (JDict d) x
| stored_in_element d k l d' n x :
    In (k, JList l) d ->
    In (JDict d') l ->
    stored_at key n (JDict d') x ->
    stored_at key (S n) (JDict d) x.

(** [key] is a key of some map anywhere inside [var], whatever the path. *)
Fixpoint occurs (key : string) (var : json) : bool :=
  match var with
  | JDict d =>
      (fix entries (d : list (string * json)) : bool :=
         match d with
         | [] => false
         | (k, v) :: rest => String.eqb k key || occurs key v || entries rest
         end) d
  | JList l => existsb (occurs key) l
  | _ => false
  end.

(** [{"k1": {"k2": ... {"kn": v} ...}}] *)
Fixpoint nest (ks : list string) (v : json) : json :=
  match ks with
  | [] => v
  | k :: ks' => JDict [(k, nest ks' v)]
  end.

(** *** Example documents *)

(** The interpreter's text for floats, lists and dictionaries is not needed
    by the examples, whose formatted values are strings. *)
Definition no_compound : Repr := {| repr_compound := fun _ => "" |}.

(** A file system in the examples: it refuses the empty name and a name
    with a NUL, as every file system does, and stores everything else. *)
Definition plain_disk : FileSystem :=
  {| fs_write := fun filename _ _ =>
       if String.eqb filename "" then OpenFails OSError
       else if existsb (Ascii.eqb Ascii.zero) (list_ascii_of_string filename)
            then OpenFails ValueError
            else Stored |}.

Definition runs (text : string) : json :=
  JDict [("runs", JList [JDict [("text", JStr text)]])].

Definition thumbnails (url : string) : json :=
  JDict [("thumbnails", JList [JDict [("url", JStr url)]])].

Definition byline (name url : string) : json :=
  JDict
    [("runs",
      JList
        [JDict
           [("text", JStr name);
            ("navigationEndpoint",
             JDict
               [("commandMetadata",
                 JDict
                   [("webCommandMetadata", JDict [("url", JStr url)])])])]])].

(** A video entry with every field the parser reads. *)
Definition video_entry (id : string) : list (string * json) :=
  [("videoId", JStr id);
   ("thumbnail",
    thumbnails ("https://i.ytimg.com/vi/" +++ id +++ "/default.jpg"));
   ("title", runs ("Title of " +++ id));
   ("lengthText", runs "3:33");
   ("longBylineText", byline "Some Channel" "/channel/UC123");
   ("channelThumbnail", thumbnails "https://yt3.ggpht.com/a/avatar.jpg");
   ("publishedTimeText", runs "2 days ago");
   ("viewCountText", runs "1,234 views")].

(** The record the parser builds from [video_entry id]. *)
Definition video_of_entry (id : string) : Video :=
  new_Video (JStr id) (JStr ("https://www.youtube.com/watch?v=" +++ id))
    (JStr ("https://i.ytimg.com/vi/" +++ id +++ "/default.jpg"))
    (JStr ("Title of " +++ id)) (JStr "3:33") (JStr "Some Channel")
    (JStr "/channel/UC123") (JStr "https://yt3.ggpht.com/a/avatar.jpg")
    (JStr "2 days ago") (JStr "1,234 views").

(** The entry without one of its fields. *)
Definition without (k : string) (d : list (string * json))
  : list (string * json) :=
  filter (fun kv => negb (String.eqb (fst kv) k)) d.

(** A results page: the entries sit in a list under
    [contents.sectionListRenderer.contents[0].itemSectionRenderer.contents],
    each under the key [compactVideoRenderer]. *)
Definition results_page (entries : list (list (string * json))) : json :=
  JDict
    [("estimatedResults", JStr "3");
     ("contents",
      JDict
        [("sectionListRenderer",
          JDict
            [("contents",
              JList
                [JDict
                   [("itemSectionRenderer",
                     JDict
                       [("contents",
                         JList
                           (map
                              (fun e =>
                                 JDict [("compactVideoRenderer", JDict e)])
                              entries))])]])])])].

(** A parser object as [SearchResultsJSONParser()] leaves it, with nothing
    printed and no file written. *)
Definition fresh_parser : world SearchResultsJSONParser.t :=
  mkWorld (SearchResultsJSONParser.new JNull []) [] [].

(** A parser whose current document is [doc]. *)
Definition parser_holding (doc : json) : world SearchResultsJSONParser.t :=
  mkWorld (SearchResultsJSONParser.new doc []) [] [].

(** A store as [VideoDataManager()] leaves it. *)
Definition fresh_store : world VideoDataManager.t :=
  mkWorld (VideoDataManager.new []) [] [].

(** A document of mixed shapes in which the key ["videoId"] is absent. *)
Definition mixed_document : json :=
  JDict
    [("a", JInt 1);
     ("b", JList [JStr "x"; JBool true; JList [JNull];
                  JDict [("c", JFloat (FFin 3 (-1)))]]);
     ("d", JDict [("e", JNull); ("f", JList [])])].

(** The records a parser without records collects from [doc]. *)
Definition records_of {R : Repr} (doc : json) : list Video :=
  SearchResultsJSONParser._videos
    (self (fst (SearchResultsJSONParser.parse_video_results doc fresh_parser))).

(** *** Parsing, entry by entry *)

(** What the loop body of [parse_video_results] does for one entry: the
    records it appends, the lines it prints, and how it ends. *)
Definition entry_effect {R : Repr} (video : json)
  : list Video * list line * result unit :=
  match getitem video (Key "videoId") with
  | Raise e => ([], [], Raise e)
  | Ok video_id =>
      match SearchResultsJSONParser.read_video video video_id with
      | Ok v => ([v], [], Ok tt)
      | Raise (KeyError k) =>
          ([],
           [Text ("KeyError for video with ID " +++ py_str video_id +++ ".");
            ExnText (KeyError k)],
           Ok tt)
      | Raise e => ([], [], Raise e)
      end
  end.

(** The same for the loop: it stops at the first entry that raises. *)
Fixpoint entries_effect {R : Repr} (videos : list json)
  : list Video * list line * result unit :=
  match videos with
  | [] => ([], [], Ok tt)
  | video :: rest =>
      match entry_effect video with
      | (vs, ls, Ok _) =>
          let '(vs', ls', r) := entries_effect rest in
          (vs ++ vs', ls ++ ls', r)
      | stopped => stopped
      end
  end.

Definition page_missing_title : json :=
  results_page
    [video_entry "abc123"; without "title" (video_entry "b"); video_entry "c"].

Definition page_missing_id : json :=
  results_page
    [video_entry "abc123"; without "videoId" (video_entry "b");
     video_entry "c"].

Definition page_null_continuation : json :=
  JDict [("continuations", JList [JDict [("nextContinuationData", JNull)]])].

Definition page_null_estimate : json :=
  JDict [("estimatedResults", JNull); ("contents", JDict [])].

(** *** The record store *)

Definition hashable (v : json) : bool :=
  match key_of v with Some _ => true | None => false end.

(** Two records have the same identifier, as a dictionary sees it. *)
Definition same_id (a b : Video) : bool :=
  match key_of (video_id a), key_of (video_id b) with
  | Some h, Some h' => hkey_eqb h h'
  | _, _ => false
  end.

(** The records of [videos] whose identifier is met for the first time,
    [earlier] being the records met before, in the order they come. *)
Fixpoint first_seen (earlier videos : list Video) : list Video :=
  match videos with
  | [] => []
  | v :: rest =>
      (if existsb (same_id v) earlier then [] else [v])
      ++ first_seen (earlier ++ [v]) rest
  end.

(** [video_of_entry id] under another title. *)
Definition retitled (id new_title : string) : Video :=
  let v := video_of_entry id in
  new_Video (video_id v) (video_url v) (thumbnail_url v) (JStr new_title)
    (length v) (channel v) (channel_url v) (channel_thumbnail_url v)
    (uploaded_on v) (view_count_text v).

(** A store holding the records of ["x"] and ["y"], inserted in that
    order. *)
Definition store_x_y : world VideoDataManager.t :=
  mkWorld
    (VideoDataManager.new
       [(JStr "x", video_of_entry "x"); (JStr "y", video_of_entry "y")])
    [] [].

(** *** The report *)

(** One entry of the plain-text report, without the line ends that follow
    it. *)
Definition plain_entry {R : Repr} (n : nat) (v : Video) : string :=
  str_of_Z (Z.of_nat n) +++ ". [" +++ py_str (video_id v) +++ "] "
  +++ py_str (title v) +++ " (" +++ py_str (length v) +++ ") - "
  +++ py_str (view_count_text v) +++ nl
  +++ "by: " +++ py_str (channel v) +++ " - uploaded "
  +++ py_str (uploaded_on v) +++ " - " +++ py_str (video_url v).

Definition markdown_header : string := "# Search Results Summary".

Definition markdown_thumbnail {R : Repr} (v : Video) : string :=
  "![thumbnail preview](" +++ py_str (thumbnail_url v) +++ ")".

Definition markdown_title_line {R : Repr} (v : Video) : string :=
  "[[" +++ py_str (video_id v) +++ "] " +++ py_str (title v) +++ "]("
  +++ py_str (video_url v) +++ ") (" +++ py_str (length v) +++ ") - "
  +++ py_str (view_count_text v).

Definition markdown_channel_line {R : Repr} (v : Video) : string :=
  "![channel thumbnail preview](" +++ py_str (channel_thumbnail_url v) +++ ") "
  +++ py_str (channel v) +++ " - uploaded " +++ py_str (uploaded_on v).

Definition markdown_separator : string := "- - -".

(** The part of the markdown document for one record: an empty line, the
    thumbnail, an empty line, the title line closed by two spaces (a hard
    line break), the channel line, an empty line, the separator. *)
Definition markdown_section {R : Repr} (v : Video) : string :=
  nl +++ markdown_thumbnail v +++ nl +++ nl
  +++ markdown_title_line v +++ "  " +++ nl
  +++ markdown_channel_line v +++ nl +++ nl
  +++ markdown_separator +++ nl.

Definition markdown_document {R : Repr} (videos : list Video) : string :=
  markdown_header +++ nl +++ nl
  +++ String.concat "" (map markdown_section videos).

(** The record [v] has the key [h]. *)
Definition key_is (h : hkey) (v : Video) : bool :=
  match key_of (video_id v) with
  | Some h' => hkey_eqb h h'
  | None => false
  end.

(** The keys of the dictionary [d] are the identifiers met in [seen]. *)
Definition tracks (seen : list Video) (d : list (json * Video)) : Prop :=
  forall h, existsb (key_is h) seen = existsb (VideoDataManager.has_key h) d.

Definition hashable_ids (videos : list Video) : bool :=
  forallb (fun v => hashable (video_id v)) videos.

(** The page of the scenario: two complete entries, one of them
    ["abc123"]. *)
Definition page_two_videos : json :=
  results_page [video_entry "abc123"; video_entry "xyz"].

(** *** Sessions *)

(** A call of a public method of the store. *)
Inductive store_call : Type :=
| AddVideo (video_id thumbnail_url title length channel channel_url
            channel_thumbnail_url uploaded_on view_count_text : json)
| AddVideoDataObject (video : Video)
| AddVideos (videos : list Video)
| GetVideo (video_id : json)
| GetVideos
| PrintVideos
| WriteVideosToMarkdownFile (filename : string).

(** The world after the call, whether it returned or raised. *)
Definition after_store_call {R : Repr} {F : FileSystem}
    (w : world VideoDataManager.t) (c : store_call)
  : world VideoDataManager.t :=
  match c with
  | AddVideo i th ti le ch cu ct up vc =>
      fst (VideoDataManager.add_video i th ti le ch cu ct up vc w)
  | AddVideoDataObject v => fst (VideoDataManager.add_video_data_object v w)
  | AddVideos vs => fst (VideoDataManager.add_videos vs w)
  | GetVideo k => fst (VideoDataManager.get_video k w)
  | GetVideos => fst (VideoDataManager.get_videos w)
  | PrintVideos => fst (VideoDataManager.print_videos w)
  | WriteVideosToMarkdownFile f =>
      fst (VideoDataManager.write_videos_to_markdown_file f w)
  end.

(** Any number of calls on a store, the caller going on after a call that
    raised. *)
Definition after_store_calls {R : Repr} {F : FileSystem}
    (calls : list store_call) (w : world VideoDataManager.t)
  : world VideoDataManager.t :=
  fold_left after_store_call calls w.

(** No two records of the list have the same identifier. *)
Fixpoint unique_ids (vs : list Video) : bool :=
  match vs with
  | [] => true
  | v :: rest => negb (existsb (same_id v) rest) && unique_ids rest
  end.

(** Every entry of the dictionary sits under the identifier of its record,
    which is hashable and is the key of no later entry. *)
Fixpoint store_inv (d : list (json * Video)) : Prop :=
  match d with
  | [] => True
  | (k, v) :: rest =>
      k = video_id v
      /\ hashable k = true
      /\ existsb (same_id v) (map snd rest) = false
      /\ store_inv rest
  end.

(** Documents parsed one after the other by one parser, the caller going
    on after a call that raised. *)
Definition after_parses {R : Repr} (docs : list json)
    (w : world SearchResultsJSONParser.t) : world SearchResultsJSONParser.t :=
  fold_left
    (fun w doc => fst (SearchResultsJSONParser.parse_video_results doc w))
    docs w.

(** The entries whose fields can all be read, as records, in order. *)
Definition readable_videos {R : Repr} (videos : list json) : list Video :=
  flat_map
    (fun video =>
       match getitem video (Key "videoId") with
       | Ok video_id =>
           match SearchResultsJSONParser.read_video video video_id with
           | Ok v => [v]
           | Raise _ => []
           end
       | Raise _ => []
       end) videos.

Definition is_KeyError (e : exn) : bool :=
  match e with KeyError _ => true | _ => false end.

(** *** A parser and a store in one program *)

(** A method of the parser, run in a program that holds a parser and a
    store: same output and files, the store untouched. *)
Definition on_parser {A}
    (c : M SearchResultsJSONParser.t A)
  : M (SearchResultsJSONParser.t * VideoDataManager.t) A :=
  fun w =>
    let (w', r) := c (mkWorld (fst (self w)) (stdout w) (files w)) in
    (mkWorld (self w', snd (self w)) (stdout w') (files w'), r).

(** A method of the store, in the same way. *)
Definition on_store {A}
    (c : M VideoDataManager.t A)
  : M (SearchResultsJSONParser.t * VideoDataManager.t) A :=
  fun w =>
    let (w', r) := c (mkWorld (snd (self w)) (stdout w) (files w)) in
    (mkWorld (fst (self w), self w') (stdout w') (files w'), r).

(** A caller that parses pages one after the other and, after each page,
    passes what [get_video_results] returns, which is the parser's whole
    list, to [add_videos].  An exception ends it. *)
Definition parse_and_add {R : Repr} (pages : list json)
  : M (SearchResultsJSONParser.t * VideoDataManager.t) unit :=
  for_each pages
    (fun page =>
       on_parser (SearchResultsJSONParser.parse_video_results page) ;;;
       videos <- on_parser SearchResultsJSONParser.get_video_results ;;
       on_store (VideoDataManager.add_videos videos)).

(** A new parser and a new store. *)
Definition fresh_program
  : world (SearchResultsJSONParser.t * VideoDataManager.t) :=
  mkWorld (self fresh_parser, self fresh_store) [] [].

(** An entry whose list of thumbnails is empty. *)
Definition entry_without_thumbnails (id : string) : list (string * json) :=
  [("videoId", JStr id); ("thumbnail", JDict [("thumbnails", JList [])])].

(** The entry has a ["videoId"], and reading its fields either succeeds or
    fails on a missing key. *)
Definition parses_or_skips {R : Repr} (video : json) : bool :=
  match getitem video (Key "videoId") with
  | Ok video_id =>
      match SearchResultsJSONParser.read_video video video_id with
      | Ok _ => true
      | Raise e => is_KeyError e
      end
  | Raise _ => false
  end.

Definition page_without_thumbnails : json :=
  results_page [video_entry "abc123"; entry_without_thumbnails "b"].

(** [video_of_entry "x"] under another identifier, of any type. *)
Definition with_id (id : json) : Video :=
  let v := video_of_entry "x" in
  new_Video id (video_url v) (thumbnail_url v) (title v) (length v)
    (channel v) (channel_url v) (channel_thumbnail_url v) (uploaded_on v)
    (view_count_text v).

Definition page_second : json :=
  results_page [video_entry "xyz"; video_entry "c"].

(** The number whose decimal digits are those of [acc] followed by [d]. *)
Fixpoint uint_value (d : Decimal.uint) (acc : Z) : Z :=
  match d with
  | Decimal.Nil => acc
  | Decimal.D0 l => uint_value l (10 * acc + 0)
  | Decimal.D1 l => uint_value l (10 * acc + 1)
  | Decimal.D2 l => uint_value l (10 * acc + 2)
  | Decimal.D3 l => uint_value l (10 * acc + 3)
  | Decimal.D4 l => uint_value l (10 * acc + 4)
  | Decimal.D5 l => uint_value l (10 * acc + 5)
  | Decimal.D6 l => uint_value l (10 * acc + 6)
  | Decimal.D7 l => uint_value l (10 * acc + 7)
  | Decimal.D8 l => uint_value l (10 * acc + 8)
  | Decimal.D9 l => uint_value l (10 * acc + 9)
  end%Z.

(** The entry has a ["videoId"] and every field the parser reads, and
    holds no ["compactVideoRenderer"] key of its own. *)
Definition complete_entry {R : Repr} (e : list (string * json)) : bool :=
  match getitem (JDict e) (Key "videoId") with
  | Ok video_id =>
      match SearchResultsJSONParser.read_video (JDict e) video_id with
      | Ok _ => true
      | Raise _ => false
      end
  | Raise _ => false
  end
  && match
       SearchResultsJSONParser._gen_dict_extract "compactVideoRenderer"
         (JDict e)
     with
     | [] => true
     | _ :: _ => false
     end.

(** An entry with fields of its own and further keys the parser does not
    read. *)
Definition entry_with_more : list (string * json) :=
  [("videoId", JStr "q1"); ("thumbnail", thumbnails "https://t/q1.jpg");
   ("title", runs "Another video"); ("shortBylineText", runs "Someone");
   ("lengthText", runs "1:02:03");
   ("longBylineText", byline "Someone" "/user/someone");
   ("channelThumbnail", thumbnails "https://t/someone.jpg");
   ("publishedTimeText", runs "1 year ago");
   ("viewCountText", runs "7 views"); ("badges", JList [JNull])].

(** * Properties *)

(** ** Deep-key extraction *)

(** Induction along the recursion of the extractor: from a dictionary down
    to the values that are dictionaries and to the elements of the values
    that are lists. *)
Lemma json_walk_ind (P : json -> Prop) :
  (forall v, is_dict v = false -> P v) ->
  (forall d,
      Forall (fun kv : string * json =>
                match snd kv with
                | JDict _ => P (snd kv)
                | JList l => Forall P l
                | _ => True
                end) d ->
      P (JDict d)) ->
  forall v, P v.
Proof.
  intros Hleaf Hdict v.
  enough (H : P v /\ (forall l, v = JList l -> Forall P l)) by apply H.
  induction v as [| | | | |l IH|d IH] using json_ind;
    try (split; [now apply Hleaf | discriminate]).
  - split; [now apply Hleaf|].
    intros l' [= <-]. eapply Forall_impl; [|exact IH]. now intros e [He _].
  - split; [|discriminate].
    apply Hdict. eapply Forall_impl; [|exact IH].
    intros [k v] [Hv Hl]. cbn [snd] in *.
    destruct v; trivial. now apply Hl.
Qed.

Section Extractor.
Import SearchResultsJSONParser.

(** What the loop over the entries of a dictionary yields. *)
Lemma gen_dict_cons key k v rest :
  _gen_dict_extract key (JDict ((k, v) :: rest))
  = (if String.eqb k key then [v] else [])
    ++ match v with
       | JDict _ => _gen_dict_extract key v
       | JList l => flat_map (_gen_dict_extract key) l
       | _ => []
       end
    ++ _gen_dict_extract key (JDict rest).
Proof. reflexivity. Qed.

Lemma gen_not_dict key v : is_dict v = false -> _gen_dict_extract key v = [].
Proof. destruct v; cbn; congruence. Qed.

(** The inner loop calls the generator on every element; only the
    elements that are dictionaries yield anything. *)
Lemma gen_elements key l :
  flat_map (_gen_dict_extract key) l
  = flat_map (_gen_dict_extract key) (filter is_dict l).
Proof.
  induction l as [|e l IH]; [reflexivity|].
  cbn [flat_map filter]. destruct (is_dict e) eqn:E.
  - cbn [flat_map]. now rewrite IH.
  - now rewrite (gen_not_dict key e E), IH.
Qed.

Lemma gen_is_dfs key var : _gen_dict_extract key var = dfs_occurrences key var.
Proof.
  induction var as [v Hv|d IH] using json_walk_ind.
  - rewrite gen_not_dict by assumption. now destruct v.
  - induction d as [|[k v] rest IHd]; [reflexivity|].
    rewrite gen_dict_cons. inversion IH as [|? ? Hv Hrest]; subst.
    rewrite (IHd Hrest). cbn [dfs_occurrences flat_map]. cbn [snd] in Hv.
    rewrite <- app_assoc. do 2 f_equal.
    destruct v; try reflexivity; [|exact Hv].
    clear IH IHd Hrest.
    induction Hv as [|e l He _ IHl]; [reflexivity|].
    cbn [flat_map]. rewrite IHl. f_equal.
    destruct e; try reflexivity. exact He.
Qed.

(** Where a value yielded from a dictionary comes from. *)
Lemma gen_dict_in key d x :
  In x (_gen_dict_extract key (JDict d)) <->
  exists k v,
    In (k, v) d
    /\ ((k = key /\ x = v)
        \/ (is_dict v = true /\ In x (_gen_dict_extract key v))
        \/ (exists l e,
               v = JList l /\ In e l /\ In x (_gen_dict_extract key e))).
Proof.
  induction d as [|[k v] rest IH].
  - split; [intros [] | intros (k & v & [] & _)].
  - rewrite gen_dict_cons, !in_app_iff, IH. clear IH. split.
    + intros [H | [H | (k' & v' & Hin & H)]].
      * destruct (String.eqb_spec k key) as [->|]; [|destruct H].
        destruct H as [<-|[]]. exists key, v. split; [now left | now left].
      * exists k, v. split; [now left|]. right.
        destruct v; try destruct H.
        -- right. apply in_flat_map in H as (e & He & Hx). now exists l, e.
        -- now left.
      * exists k', v'. split; [now right | exact H].
    + intros (k' & v' & Hin & H). destruct Hin as [E | Hin].
      * injection E as <- <-.
        destruct H as [[-> ->] | [[Hd Hx] | (l & e & -> & He & Hx)]].
        -- left. rewrite String.eqb_refl. now left.
        -- right; left. destruct v; try discriminate; exact Hx.
        -- right; left. apply in_flat_map. now exists e.
      * right; right. now exists k', v'.
Qed.

Lemma stored_is_yielded key n var x :
  stored_at key n var x -> In x (_gen_dict_extract key var).
Proof.
  induction 1 as [d x Hin | d k d' n x Hin _ IH | d k l d' n x Hin He _ IH];
    apply gen_dict_in.
  - exists key, x. split; [exact Hin | now left].
  - exists k, (JDict d'). split; [exact Hin | right; left; now split].
  - exists k, (JList l). split; [exact Hin|]. right; right.
    now exists l, (JDict d').
Qed.

Lemma yielded_is_stored key var x :
  In x (_gen_dict_extract key var) -> exists n, stored_at key n var x.
Proof.
  revert x. induction var as [v Hv|d IH] using json_walk_ind; intros x Hx.
  - rewrite gen_not_dict in Hx by assumption. destruct Hx.
  - apply gen_dict_in in Hx as (k & v & Hin & H).
    rewrite Forall_forall in IH. specialize (IH _ Hin). cbn [snd] in IH.
    destruct H as [[-> ->] | [[Hd Hx] | (l & e & -> & He & Hx)]].
    + exists 0. now constructor.
    + destruct v; try discriminate.
      destruct (IH _ Hx) as [n Hn]. exists (S n).
      eapply stored_in_value; eassumption.
    + rewrite Forall_forall in IH. specialize (IH _ He).
      destruct e; try (cbn in Hx; destruct Hx).
      destruct (IH _ Hx) as [n Hn]. exists (S n).
      eapply stored_in_element; eassumption.
Qed.

Lemma gen_nest key ks x :
  In x (_gen_dict_extract key (nest ks (JDict [(key, x)]))).
Proof.
  induction ks as [|k ks IH]; cbn [nest].
  - apply gen_dict_in. exists key, x. split; [now left | now left].
  - apply gen_dict_in. exists k, (nest ks (JDict [(key, x)])).
    split; [now left|]. right; left. split; [|exact IH].
    now destruct ks.
Qed.

(** C3.  For every structure and key, the extractor yields exactly the
    values stored under the key at any depth below the top-level map
    (through map values, and through maps that are elements of a
    sequence stored as a map value): every such value is yielded and
    nothing else is.  The order is the depth-first one (entries in stored
    order, elements in index order, a match before what lies inside it),
    and a yielded map is itself explored.  In particular a value stored
    under the key below any chain of maps, of length 0, 1, 5 or any
    other, is found. *)
Theorem extractor_yields_every_occurrence key var :
  (forall x,
      In x (_gen_dict_extract key var)
      <-> exists n, stored_at key n var x)
  /\ _gen_dict_extract key var = dfs_occurrences key var
  /\ (forall d rest,
         _gen_dict_extract key (JDict ((key, JDict d) :: rest))
         = JDict d :: _gen_dict_extract key (JDict d)
             ++ _gen_dict_extract key (JDict rest))
  /\ (forall ks x,
         In x (_gen_dict_extract key (nest ks (JDict [(key, x)])))).
Proof.
  repeat split.
  - apply yielded_is_stored.
  - intros [n Hn]. eapply stored_is_yielded, Hn.
  - apply gen_is_dfs.
  - intros d rest. rewrite gen_dict_cons, String.eqb_refl. reflexivity.
  - intros ks x. apply gen_nest.
Qed.

Lemma occurs_dict_cons key k v rest :
  occurs key (JDict ((k, v) :: rest))
  = String.eqb k key || occurs key v || occurs key (JDict rest).
Proof. reflexivity. Qed.

(** C4.  When the key occurs nowhere in the structure the extractor
    yields the empty sequence, whatever the shapes of the values met
    (scalars, sequences and maps in any mix; [gen_not_dict] is the case of
    a structure that is not a map).  The generator is a total function on
    documents: none of [hasattr], [items], [==], [isinstance] or the
    iteration over a list can raise. *)
Theorem extractor_absent_key_yields_nothing key var :
  occurs key var = false -> _gen_dict_extract key var = [].
Proof.
  induction var as [v Hv|d IH] using json_walk_ind; intros Hocc.
  - now apply gen_not_dict.
  - induction d as [|[k v] rest IHd]; [reflexivity|].
    rewrite occurs_dict_cons in Hocc.
    apply orb_false_iff in Hocc as [Hocc Hrest].
    apply orb_false_iff in Hocc as [Hk Hv].
    inversion IH as [|? ? IHv IHrest]; subst. cbn [snd] in IHv.
    rewrite gen_dict_cons, Hk, (IHd IHrest Hrest), app_nil_r. cbn [app].
    destruct v; try reflexivity.
    + cbn [occurs] in Hv. clear - IHv Hv.
      induction IHv as [|e l He _ IHl]; [reflexivity|].
      cbn [existsb] in Hv. apply orb_false_iff in Hv as [Hv1 Hv2].
      cbn [flat_map]. now rewrite (He Hv1), (IHl Hv2).
    + now apply IHv.
Qed.

(** C5.  The extractor goes into a map value that is a map and into the
    elements of a sequence value that are maps; an element that is not a
    map (another sequence included) is not explored; and a structure
    whose top level is a sequence yields nothing, whatever its elements
    hold. *)
Theorem extractor_skips_nested_sequences key :
  (forall l, _gen_dict_extract key (JList l) = [])
  /\ (forall k d rest,
         _gen_dict_extract key (JDict ((k, JDict d) :: rest))
         = (if String.eqb k key then [JDict d] else [])
           ++ _gen_dict_extract key (JDict d)
           ++ _gen_dict_extract key (JDict rest))
  /\ (forall k l rest,
         _gen_dict_extract key (JDict ((k, JList l) :: rest))
         = (if String.eqb k key then [JList l] else [])
           ++ flat_map (_gen_dict_extract key) (filter is_dict l)
           ++ _gen_dict_extract key (JDict rest))
  /\ (forall k inner l rest,
         _gen_dict_extract key (JDict ((k, JList (JList inner :: l)) :: rest))
         = (if String.eqb k key then [JList (JList inner :: l)] else [])
           ++ flat_map (_gen_dict_extract key) l
           ++ _gen_dict_extract key (JDict rest)).
Proof.
  repeat split; try reflexivity.
  intros k l rest. rewrite gen_dict_cons. now rewrite gen_elements.
Qed.

End Extractor.

(** A document of numbers, strings, booleans, [None], lists and maps that
    has no ["videoId"] key yields nothing for it. *)
Lemma extractor_absent_key_yields_nothing_witness :
  SearchResultsJSONParser._gen_dict_extract "videoId" mixed_document = [].
Proof.
  apply (extractor_absent_key_yields_nothing "videoId" mixed_document).
  reflexivity.
Defined.

(** ** The results parser *)

Section Parser.
Import SearchResultsJSONParser.
Context {R : Repr}.

Lemma parse_video_effect video w :
  parse_video video w
  = let '(vs, ls, r) := entry_effect video in
    (mkWorld (new (_json (self w)) (_videos (self w) ++ vs))
       (stdout w ++ ls) (files w), r).
Proof.
  destruct w as [[j vids] out fs].
  unfold parse_video, entry_effect, try_except, lift, append_video,
    get_self, set_self, print.
  cbn -[read_video getitem py_str String.append].
  destruct (getitem video (Key "videoId")) as [video_id|e];
    cbn -[read_video getitem py_str String.append].
  - destruct (read_video video video_id) as [v|[]];
      cbn -[py_str String.append];
      rewrite ?app_nil_r, <- ?app_assoc; reflexivity.
  - now rewrite !app_nil_r.
Qed.

Lemma for_each_parse_video_effect videos w :
  for_each videos parse_video w
  = let '(vs, ls, r) := entries_effect videos in
    (mkWorld (new (_json (self w)) (_videos (self w) ++ vs))
       (stdout w ++ ls) (files w), r).
Proof.
  revert w. induction videos as [|video rest IH]; intros w.
  - destruct w as [[j vids] out fs]. cbn. now rewrite !app_nil_r.
  - cbn [for_each entries_effect]. cbn [bind M_Monad].
    rewrite parse_video_effect.
    destruct (entry_effect video) as [[vs ls] [[]|e]]; [|reflexivity].
    rewrite IH. destruct (entries_effect rest) as [[vs' ls'] r]. cbn.
    now rewrite !app_assoc.
Qed.

(** [parse_video_results] replaces the current document, appends to the
    records already collected, appends to what was printed, and touches
    nothing else. *)
Lemma parse_video_results_effect doc w :
  parse_video_results doc w
  = let '(vs, ls, r) :=
      entries_effect (_gen_dict_extract "compactVideoRenderer" doc) in
    (mkWorld (new doc (_videos (self w) ++ vs)) (stdout w ++ ls) (files w),
     r).
Proof.
  unfold parse_video_results. cbn [bind M_Monad get_self set_self].
  rewrite for_each_parse_video_effect. reflexivity.
Qed.

Lemma records_of_effect doc :
  records_of doc
  = fst (fst (entries_effect (_gen_dict_extract "compactVideoRenderer" doc))).
Proof.
  unfold records_of. rewrite parse_video_results_effect.
  now destruct (entries_effect _) as [[vs ls] r].
Qed.

Lemma parse_video_results_appends doc w :
  _videos (self (fst (parse_video_results doc w)))
  = _videos (self w) ++ records_of doc.
Proof.
  rewrite records_of_effect, parse_video_results_effect.
  now destruct (entries_effect _) as [[vs ls] r].
Qed.

(** When every entry has a [videoId] and reading its fields either
    succeeds or raises [KeyError], the call returns normally: the entries
    that raise are skipped and the others are kept. *)
Lemma parse_video_results_skips_KeyError doc w :
  Forall
    (fun video =>
       exists id,
         getitem video (Key "videoId") = Ok id
         /\ (forall e,
                read_video video id = Raise e -> exists k, e = KeyError k))
    (_gen_dict_extract "compactVideoRenderer" doc) ->
  snd (parse_video_results doc w) = Ok tt.
Proof.
  rewrite parse_video_results_effect.
  generalize (_gen_dict_extract "compactVideoRenderer" doc) as videos.
  intros videos Hall.
  enough (H : snd (entries_effect videos) = Ok tt)
    by (destruct (entries_effect videos) as [[vs ls] r]; exact H).
  induction Hall as [|video rest (id & Hid & Hread) _ IH]; [reflexivity|].
  cbn [entries_effect]. unfold entry_effect. rewrite Hid.
  destruct (read_video video id) as [v|e] eqn:E.
  - now destruct (entries_effect rest) as [[vs ls] r].
  - destruct (Hread e eq_refl) as [k ->].
    now destruct (entries_effect rest) as [[vs ls] r].
Qed.

(** C1.  An entry without ["title"] is skipped and reported, and the
    entries around it are kept; an entry without ["videoId"] is not
    skipped: [video["videoId"]] is read before the [try], so its
    [KeyError] leaves [parse_video_results], and the valid entry after it
    is never read. *)
Theorem parse_video_results_missing_videoId_escapes :
  parse_video_results page_missing_title fresh_parser
  = (mkWorld
       (new page_missing_title [video_of_entry "abc123"; video_of_entry "c"])
       [Text "KeyError for video with ID b.";
        ExnText (KeyError (JStr "title"))]
       [],
     Ok tt)
  /\ wf_json page_missing_id = true
  /\ parse_video_results page_missing_id fresh_parser
     = (mkWorld (new page_missing_id [video_of_entry "abc123"]) [] [],
        Raise (KeyError (JStr "videoId"))).
Proof. split; [|split]; reflexivity. Qed.

(** C2, as the code has it.  Only the first value the extractor yields
    for ["nextContinuationData"] is used.  Without any, the result is
    [None].  When the first is a map, the result is the pair of its
    ["continuation"] and ["clickTrackingParams"] values, or [None] when
    either is missing, never a partial pair.  When the first is not a map
    the subscript raises [TypeError], which no clause catches.  The
    parser object is left as it was. *)
Theorem next_continuation_uses_first_match w :
  snd (get_next_continuation_data w)
  = match _gen_dict_extract "nextContinuationData" (_json (self w)) with
    | [] => Ok None
    | JDict d :: _ =>
        match dict_get "continuation" d, dict_get "clickTrackingParams" d with
        | Some token, Some params => Ok (Some (token, params))
        | _, _ => Ok None
        end
    | _ :: _ => Raise TypeError
    end
  /\ self (fst (get_next_continuation_data w)) = self w.
Proof.
  unfold get_next_continuation_data, try_except, lift, print.
  cbn -[_gen_dict_extract dict_get].
  destruct (_gen_dict_extract "nextContinuationData" (_json (self w)))
    as [|x rest]; [now split|].
  destruct x; try (now split).
  cbn -[dict_get].
  destruct (dict_get "continuation" d); [|now split].
  destruct (dict_get "clickTrackingParams" d); now split.
Qed.

(** C2, as stated, fails: the first (and only) occurrence is [null],
    which has neither sub-field, and the call raises instead of returning
    [None]. *)
Lemma next_continuation_null_match_raises :
  wf_json page_null_continuation = true
  /\ _gen_dict_extract "nextContinuationData" page_null_continuation = [JNull]
  /\ snd (get_next_continuation_data (parser_holding page_null_continuation))
     = Raise TypeError
  /\ snd (get_next_continuation_data (parser_holding page_null_continuation))
     <> Ok None.
Proof. repeat split; try reflexivity. discriminate. Qed.

(** C8, as the code has it.  The count is [int] of the value of the
    top-level ["estimatedResults"] field: 3 for the string ["3"].  The
    call raises [KeyError] when the document is a map without the field,
    [TypeError] when the document is not a map, and whatever [int] raises
    when the field is there with a value [int] does not accept. *)
Theorem estimated_results_count_is_int_of_field w :
  snd (get_estimated_results_count w)
  = match _json (self w) with
    | JDict d =>
        match dict_get "estimatedResults" d with
        | Some v => py_int v
        | None => Raise (KeyError (JStr "estimatedResults"))
        end
    | _ => Raise TypeError
    end
  /\ (forall entries,
         snd (get_estimated_results_count
                (parser_holding (results_page entries)))
         = Ok 3%Z).
Proof.
  split; [|reflexivity].
  unfold get_estimated_results_count, lift.
  cbn -[dict_get py_int]. unfold getitem.
  destruct (_json (self w)); try reflexivity.
  now destruct (dict_get "estimatedResults" d).
Qed.

(** C8, as stated, fails: the field is present at the top level and the
    call fails all the same. *)
Lemma estimated_results_count_null_raises :
  wf_json page_null_estimate = true
  /\ getitem page_null_estimate (Key "estimatedResults") = Ok JNull
  /\ snd (get_estimated_results_count (parser_holding page_null_estimate))
     = Raise TypeError.
Proof. repeat split. Qed.

(** C10.  Two calls in a row leave the records the parser had, then the
    records of the first document, then those of the second; nothing is
    cleared and nothing is merged: the same page parsed twice gives its
    record twice. *)
Theorem parser_accumulates_across_calls w doc1 doc2 :
  snd (get_video_results
         (fst (parse_video_results doc2 (fst (parse_video_results doc1 w)))))
  = Ok (_videos (self w) ++ records_of doc1 ++ records_of doc2)
  /\ snd (get_video_results
            (fst (parse_video_results doc2
                    (fst (parse_video_results doc1 fresh_parser)))))
     = Ok (records_of doc1 ++ records_of doc2)
  /\ snd (get_video_results
            (fst (parse_video_results (results_page [video_entry "abc123"])
                    (fst (parse_video_results
                            (results_page [video_entry "abc123"])
                            fresh_parser)))))
     = Ok [video_of_entry "abc123"; video_of_entry "abc123"].
Proof.
  assert (H : forall w0,
             snd (get_video_results
                    (fst (parse_video_results doc2
                            (fst (parse_video_results doc1 w0)))))
             = Ok (_videos (self w0) ++ records_of doc1 ++ records_of doc2)).
  { intros w0. unfold get_video_results. cbn [bind M_Monad get_self ret snd].
    now rewrite !parse_video_results_appends, app_assoc. }
  split; [apply H | split; [apply (H fresh_parser) | reflexivity]].
Qed.

End Parser.

(** ** The record store *)

Lemma hkey_eqb_eq a b : hkey_eqb a b = true <-> a = b.
Proof.
  destruct a, b; cbn; split; try discriminate; try reflexivity.
  - now intros ->%String.eqb_eq.
  - intros [= ->]. apply String.eqb_refl.
  - intros [->%Z.eqb_eq ->%Z.eqb_eq]%andb_true_iff. reflexivity.
  - intros [= -> ->]. now rewrite !Z.eqb_refl.
  - now intros ->%Bool.eqb_prop.
  - intros [= ->]. apply Bool.eqb_reflx.
Qed.

Lemma hkey_eqb_refl a : hkey_eqb a a = true.
Proof. now apply hkey_eqb_eq. Qed.

Section Store.
Import VideoDataManager.
Context {R : Repr}.

(** The three ways [add_video_data_object] can go. *)
Lemma add_video_data_object_effect v w :
  add_video_data_object v w
  = match contains (_videos (self w)) (video_id v) with
    | Ok true =>
        (mkWorld (self w) (stdout w ++ [already (video_id v)]) (files w),
         Ok tt)
    | Ok false =>
        (mkWorld (new (_videos (self w) ++ [(video_id v, v)])) (stdout w)
           (files w),
         Ok tt)
    | Raise e => (w, Raise e)
    end.
Proof.
  unfold add_video_data_object, lift, get_self, set_self, print.
  cbn -[contains already].
  now destruct (contains (_videos (self w)) (video_id v)) as [[]|].
Qed.

Lemma contains_after_insert d v :
  contains d (video_id v) = Ok false ->
  contains (d ++ [(video_id v, v)]) (video_id v) = Ok true.
Proof.
  unfold contains.
  destruct (key_of (video_id v)) as [h|] eqn:E; [|discriminate].
  intros _. rewrite existsb_app. cbn. unfold has_key at 2. cbn [fst].
  now rewrite E, hkey_eqb_refl, orb_true_r.
Qed.

(** C6.  Inserting a record a second time changes neither the store nor
    what [get_videos] enumerates.  Inserting a record whose identifier is
    already a key leaves the store as it is, whatever the other fields of
    the record are; the call returns normally and prints one line. *)
Theorem insert_is_idempotent_by_identifier v w :
  (self (fst (add_video_data_object v (fst (add_video_data_object v w))))
   = self (fst (add_video_data_object v w))
   /\ snd (get_videos
             (fst (add_video_data_object v (fst (add_video_data_object v w)))))
      = snd (get_videos (fst (add_video_data_object v w))))
  /\ (contains (_videos (self w)) (video_id v) = Ok true ->
      add_video_data_object v w
      = (mkWorld (self w) (stdout w ++ [already (video_id v)]) (files w),
         Ok tt)).
Proof.
  split.
  - assert (H : self (fst (add_video_data_object v
                              (fst (add_video_data_object v w))))
                = self (fst (add_video_data_object v w))).
    { rewrite (add_video_data_object_effect v w).
      destruct (contains (_videos (self w)) (video_id v)) as [[]|e] eqn:E;
        rewrite add_video_data_object_effect; cbn [fst self _videos].
      - now rewrite E.
      - now rewrite (contains_after_insert _ _ E).
      - now rewrite E. }
    split; [exact H|]. unfold get_videos.
    cbn [bind M_Monad get_self ret snd]. now rewrite H.
  - intros H. now rewrite add_video_data_object_effect, H.
Qed.

Lemma first_seen_app earlier a b :
  first_seen earlier (a ++ b)
  = first_seen earlier a ++ first_seen (earlier ++ a) b.
Proof.
  revert earlier. induction a as [|v a IH]; intros earlier.
  - now rewrite app_nil_r.
  - cbn [app first_seen]. rewrite IH, <- !app_assoc. reflexivity.
Qed.

Lemma existsb_same_id v h seen :
  key_of (video_id v) = Some h ->
  existsb (same_id v) seen = existsb (key_is h) seen.
Proof.
  intros E. induction seen as [|e seen IH]; [reflexivity|].
  cbn [existsb]. rewrite IH. unfold same_id, key_is. now rewrite E.
Qed.

(** One call of [add_videos] on records with hashable identifiers. *)
Lemma add_videos_effect videos :
  forall w seen,
    tracks seen (_videos (self w)) ->
    hashable_ids videos = true ->
    snd (add_videos videos w) = Ok tt
    /\ values (self (fst (add_videos videos w)))
       = values (self w) ++ first_seen seen videos
    /\ tracks (seen ++ videos) (_videos (self (fst (add_videos videos w)))).
Proof.
  induction videos as [|v rest IH]; intros w seen Htr Hh.
  - cbn. now rewrite !app_nil_r.
  - cbn [hashable_ids forallb] in Hh. apply andb_true_iff in Hh as [Hv Hrest].
    unfold hashable in Hv.
    destruct (key_of (video_id v)) as [h|] eqn:Ek; [clear Hv|discriminate].
    unfold add_videos in *. cbn [for_each bind M_Monad].
    rewrite add_video_data_object_effect. unfold contains. rewrite Ek.
    cbn [first_seen]. rewrite (existsb_same_id v h seen Ek).
    rewrite (Htr h).
    destruct (existsb (has_key h) (_videos (self w))) eqn:Ein.
    + specialize (IH (mkWorld (self w) (stdout w ++ [already (video_id v)])
                        (files w)) (seen ++ [v])).
      destruct IH as (Hr & Hvals & Htr'); [|exact Hrest|].
      * intros h'. rewrite existsb_app. cbn [existsb self _videos].
        rewrite orb_false_r, <- (Htr h').
        unfold key_is at 2. rewrite Ek.
        destruct (hkey_eqb h' h) eqn:Eh; [|now rewrite orb_false_r].
        apply hkey_eqb_eq in Eh as ->. now rewrite (Htr h), Ein.
      * rewrite <- app_assoc in Htr'. now repeat split.
    + specialize (IH (mkWorld (new (_videos (self w) ++ [(video_id v, v)]))
                        (stdout w) (files w)) (seen ++ [v])).
      destruct IH as (Hr & Hvals & Htr'); [|exact Hrest|].
      * intros h'. cbn [self _videos]. rewrite !existsb_app. cbn [existsb].
        rewrite (Htr h'). unfold key_is, has_key. cbn [fst]. reflexivity.
      * rewrite <- app_assoc in Htr'. repeat split; [exact Hr| |exact Htr'].
        rewrite Hvals. unfold values. cbn [self _videos].
        now rewrite map_app, <- app_assoc.
Qed.

(** Any number of calls, one after the other. *)
Lemma add_videos_batches_effect batches :
  forall w seen,
    tracks seen (_videos (self w)) ->
    forallb hashable_ids batches = true ->
    snd (for_each batches add_videos w) = Ok tt
    /\ values (self (fst (for_each batches add_videos w)))
       = values (self w) ++ first_seen seen (List.concat batches).
Proof.
  induction batches as [|videos rest IH]; intros w seen Htr Hh.
  - cbn. now rewrite app_nil_r.
  - cbn [forallb] in Hh. apply andb_true_iff in Hh as [Hv Hrest].
    destruct (add_videos_effect videos w seen Htr Hv) as (Hr & Hvals & Htr').
    cbn [for_each bind M_Monad List.concat].
    destruct (add_videos videos w) as [w' r] eqn:E. cbn [fst snd] in *.
    subst r.
    destruct (IH w' (seen ++ videos) Htr' Hrest) as (Hr' & Hvals').
    split; [exact Hr'|].
    now rewrite Hvals', Hvals, first_seen_app, app_assoc.
Qed.

(** C7.  Over the life of a store, whatever the calls of [add_videos]
    and the records passed to each (their identifiers being hashable, as
    every [str] is), every call returns normally and [get_videos] lists
    the records whose identifier was new when they came, in the order
    they came; a record whose identifier was met before is dropped. *)
Theorem add_videos_lists_first_seen batches :
  forallb hashable_ids batches = true ->
  snd (for_each batches add_videos fresh_store) = Ok tt
  /\ snd (get_videos (fst (for_each batches add_videos fresh_store)))
     = Ok (first_seen [] (List.concat batches)).
Proof.
  intros Hh.
  destruct (add_videos_batches_effect batches fresh_store [])
    as (Hr & Hvals); [intros h; reflexivity | exact Hh |].
  split; [exact Hr|]. unfold get_videos.
  cbn [bind M_Monad get_self ret snd]. now rewrite Hvals.
Qed.

End Store.

Section StoreExamples.
Import VideoDataManager.

(** A store that already holds a record under ["x"] keeps it when a
    record with the same identifier and another title is inserted. *)
Lemma insert_is_idempotent_by_identifier_witness :
  add_video_data_object (R := no_compound) (retitled "x" "Another title")
    store_x_y
  = (mkWorld (self store_x_y)
       [already (R := no_compound)
          (video_id (retitled "x" "Another title"))]
       [],
     Ok tt).
Proof.
  apply (proj2 (insert_is_idempotent_by_identifier (R := no_compound)
                  (retitled "x" "Another title") store_x_y)).
  reflexivity.
Defined.

(** Two calls: ["x"], ["y"] and ["x"] again under another title, then
    ["y"] again and ["z"].  The store lists ["x"], ["y"], ["z"], each as
    it first came. *)
Lemma add_videos_lists_first_seen_witness :
  snd (get_videos
         (fst (for_each
                 [[video_of_entry "x"; video_of_entry "y";
                   retitled "x" "Another title"];
                  [retitled "y" "Another title"; video_of_entry "z"]]
                 (add_videos (R := no_compound)) fresh_store)))
  = Ok [video_of_entry "x"; video_of_entry "y"; video_of_entry "z"].
Proof.
  apply (proj2 (add_videos_lists_first_seen (R := no_compound)
                  [[video_of_entry "x"; video_of_entry "y";
                    retitled "x" "Another title"];
                   [retitled "y" "Another title"; video_of_entry "z"]]
                  eq_refl)).
Defined.

End StoreExamples.

(** ** The report *)

Lemma append_assoc (a b c : string) : (a +++ b) +++ c = a +++ (b +++ c).
Proof. induction a as [|x a IH]; cbn; [reflexivity | now rewrite IH]. Qed.

Lemma append_nil_r (a : string) : a +++ "" = a.
Proof. induction a as [|x a IH]; cbn; [reflexivity | now rewrite IH]. Qed.

Section Report.
Import VideoDataManager.
Context {R : Repr} {F : FileSystem}.

(** The argument of [print] for the record numbered [n]. *)
Lemma numbered_line n v :
  str_of_Z (Z.of_nat n) +++ ". " +++ Video_str v = plain_entry n v +++ nl.
Proof.
  unfold plain_entry, Video_str. rewrite !append_assoc. reflexivity.
Qed.

Lemma print_from_effect videos :
  forall n w,
    print_from (Z.of_nat n) videos w
    = (mkWorld (self w)
         (stdout w
          ++ map (fun nv => Text (plain_entry (fst nv) (snd nv) +++ nl))
               (combine (seq n (List.length videos)) videos))
         (files w),
       Ok tt).
Proof.
  induction videos as [|v rest IH]; intros n w.
  - cbn. rewrite app_nil_r. now destruct w.
  - cbn [print_from bind M_Monad print]. unfold print.
    replace (Z.of_nat n + 1)%Z with (Z.of_nat (S n)) by lia.
    rewrite IH. cbn [self stdout files List.length seq combine map fst snd].
    now rewrite numbered_line, <- app_assoc.
Qed.

Lemma py_join_cons sep p q rest :
  py_join sep (p :: q :: rest) = p +++ sep +++ py_join sep (q :: rest).
Proof. reflexivity. Qed.

Lemma concat_cons x xs :
  String.concat "" (x :: xs) = x +++ String.concat "" xs.
Proof. destruct xs; cbn; [now rewrite append_nil_r | reflexivity]. Qed.

Lemma join_sections first videos :
  py_join nl (first :: flat_map markdown_of videos)
  = first +++ String.concat "" (map markdown_section videos).
Proof.
  revert first. induction videos as [|v rest IH]; intros first.
  - cbn. now rewrite append_nil_r.
  - cbn [flat_map markdown_of app map].
    rewrite !py_join_cons, IH, concat_cons.
    generalize (String.concat "" (map markdown_section rest)) as tail.
    intros tail.
    unfold markdown_section, markdown_thumbnail, markdown_title_line,
      markdown_channel_line, markdown_separator.
    rewrite !append_assoc. reflexivity.
Qed.

(** C9.  [print_videos] prints, for the records in the order [get_videos]
    enumerates them and numbered from 1, the entry
    [<n>. [<id>] <title> (<duration>) - <views>], a line end, and
    [by: <channel> - uploaded <uploaded_on> - <url>], followed by the
    line end that closes [Video.__str__] (and the one [print] adds).
    [write_videos_to_markdown_file] hands the file system one text: the
    header [# Search Results Summary] and an empty line, then for every
    record, in the same order, the thumbnail image, the title line
    [[[<id>] <title>](<url>) (<duration>) - <views>], the channel line
    with the channel thumbnail image, and the separator.  When the file
    system stores it, that text is the file and the call returns; when
    [open] raises, nothing is written, and when the write fails the file
    keeps what reached it; in both cases the exception reaches the
    caller. *)
Theorem report_lists_records_in_store_order filename w :
  print_videos w
  = (mkWorld (self w)
       (stdout w
        ++ map (fun nv => Text (plain_entry (fst nv) (snd nv) +++ nl))
             (combine (seq 1 (List.length (values (self w))))
                (values (self w))))
       (files w),
     Ok tt)
  /\ write_videos_to_markdown_file filename w
     = match
         fs_write filename (markdown_document (values (self w))) (files w)
       with
       | Stored =>
           (mkWorld (self w) (stdout w)
              (put_file filename (markdown_document (values (self w)))
                 (files w)),
            Ok tt)
       | OpenFails e => (w, Raise e)
       | WriteFails e kept =>
           (mkWorld (self w) (stdout w) (put_file filename kept (files w)),
            Raise e)
       end
  /\ snd (get_videos w) = Ok (values (self w)).
Proof.
  split; [|split; [|reflexivity]].
  - unfold print_videos. cbn [bind M_Monad get_self].
    apply (print_from_effect (values (self w)) 1 w).
  - unfold write_videos_to_markdown_file, markdown_contents.
    cbn [bind M_Monad get_self]. rewrite join_sections.
    replace (("# Search Results Summary" +++ nl +++ nl)
             +++ String.concat "" (map markdown_section (values (self w))))
      with (markdown_document (values (self w)))
      by (unfold markdown_document, markdown_header;
          now rewrite !append_assoc).
    reflexivity.
Qed.

End Report.

(** ** A whole session *)

(** The page with two complete entries gives two records and the count 3;
    stored and rendered, the markdown file starts with the header and has
    the title line of ["abc123"]. *)
Example scenario_two_videos :
  records_of (R := no_compound) page_two_videos
  = [video_of_entry "abc123"; video_of_entry "xyz"]
  /\ snd (SearchResultsJSONParser.get_estimated_results_count
            (parser_holding page_two_videos))
     = Ok 3%Z
  /\ files
       (fst (VideoDataManager.write_videos_to_markdown_file
               (R := no_compound) (F := plain_disk)
               VideoDataManager.default_filename
               (fst (VideoDataManager.add_videos (R := no_compound)
                       (records_of (R := no_compound) page_two_videos)
                       fresh_store))))
     = [("yt_search_results.md",
         "# Search Results Summary


![thumbnail preview](https://i.ytimg.com/vi/abc123/default.jpg)

[[abc123] Title of abc123](https://www.youtube.com/watch?v=abc123) (3:33) - 1,234 views  
![channel thumbnail preview](https://yt3.ggpht.com/a/avatar.jpg) Some Channel - uploaded 2 days ago

- - -

![thumbnail preview](https://i.ytimg.com/vi/xyz/default.jpg)

[[xyz] Title of xyz](https://www.youtube.com/watch?v=xyz) (3:33) - 1,234 views  
![channel thumbnail preview](https://yt3.ggpht.com/a/avatar.jpg) Some Channel - uploaded 2 days ago

- - -
")].
Proof. split; [|split]; reflexivity. Qed.

(** A file system refuses the empty name: nothing is written and the
    [OSError] of [open] reaches the caller. *)
Example markdown_file_refused :
  VideoDataManager.write_videos_to_markdown_file (R := no_compound)
    (F := plain_disk) "" store_x_y
  = (store_x_y, Raise OSError).
Proof. reflexivity. Qed.

(** * Further properties *)

(** ** Loops *)

(** A loop whose body keeps a reflexive and transitive relation between the
    object before and after keeps it as a whole, also when it stops on an
    exception. *)
Lemma for_each_keeps {S A} (Q : S -> S -> Prop) (body : A -> M S unit) :
  (forall s, Q s s) ->
  (forall s1 s2 s3, Q s1 s2 -> Q s2 s3 -> Q s1 s3) ->
  (forall x w, Q (self w) (self (fst (body x w)))) ->
  forall xs w, Q (self w) (self (fst (for_each xs body w))).
Proof.
  intros Hrefl Htrans Hbody xs.
  induction xs as [|x xs IH]; intros w; [apply Hrefl|].
  cbn [for_each bind M_Monad]. specialize (Hbody x w).
  destruct (body x w) as [w' [[]|e]]; cbn [fst] in *.
  - eapply Htrans; [exact Hbody | apply IH].
  - exact Hbody.
Qed.

Lemma for_each_app {S A} (body : A -> M S unit) xs ys w :
  for_each (xs ++ ys) body w
  = match for_each xs body w with
    | (w', Ok _) => for_each ys body w'
    | stopped => stopped
    end.
Proof.
  revert w. induction xs as [|x xs IH]; intros w; [reflexivity|].
  cbn [app for_each bind M_Monad].
  destruct (body x w) as [w' [[]|e]]; [apply IH | reflexivity].
Qed.

(** ** More on the record store *)

Lemma hkey_eqb_sym a b : hkey_eqb a b = hkey_eqb b a.
Proof.
  destruct (hkey_eqb a b) eqn:E.
  - apply hkey_eqb_eq in E as ->. symmetry. apply hkey_eqb_refl.
  - destruct (hkey_eqb b a) eqn:E'; [|reflexivity].
    apply hkey_eqb_eq in E' as ->. now rewrite hkey_eqb_refl in E.
Qed.

Lemma same_id_sym a b : same_id a b = same_id b a.
Proof.
  unfold same_id.
  destruct (key_of (video_id a)), (key_of (video_id b)); try reflexivity.
  apply hkey_eqb_sym.
Qed.

(** Writing a file changes neither the object nor what was printed,
    however it ends. *)
Lemma write_file_keeps {F : FileSystem} {S} filename text (w : world S) :
  self (fst (write_file filename text w)) = self w
  /\ stdout (fst (write_file filename text w)) = stdout w.
Proof.
  unfold write_file.
  now destruct (fs_write filename text (files w)).
Qed.

Section StoreSessions.
Import VideoDataManager.
Context {R : Repr} {F : FileSystem}.

Lemma write_videos_keeps_self filename w :
  self (fst (write_videos_to_markdown_file filename w)) = self w.
Proof.
  unfold write_videos_to_markdown_file. cbn [bind M_Monad get_self].
  apply write_file_keeps.
Qed.

Lemma add_video_as_object (i th ti le ch cu ct up vc : json) (w : world t) :
  add_video i th ti le ch cu ct up vc w
  = add_video_data_object (new_Video i (watch_url i) th ti le ch cu ct up vc) w.
Proof. reflexivity. Qed.

Lemma get_video_effect k w :
  get_video k w
  = match lookup (_videos (self w)) k with
    | Ok v => (w, Ok (Some v))
    | Raise (KeyError k') =>
        (mkWorld (self w)
           (stdout w
            ++ [Text ("No video with ID '" +++ py_str k
                      +++ "' found in search results.");
                ExnText (KeyError k')])
           (files w),
         Ok None)
    | Raise e => (w, Raise e)
    end.
Proof.
  unfold get_video, try_except, lift, print, get_self.
  cbn -[lookup py_str String.append].
  destruct (lookup (_videos (self w)) k) as [v|[]];
    cbn -[py_str String.append]; rewrite <- ?app_assoc; reflexivity.
Qed.

Lemma get_video_keeps_self k w : self (fst (get_video k w)) = self w.
Proof.
  rewrite get_video_effect.
  now destruct (lookup (_videos (self w)) k) as [v|[]].
Qed.

Lemma print_from_keeps_self videos :
  forall index w, self (fst (print_from index videos w)) = self w.
Proof.
  induction videos as [|v rest IH]; intros index w; [reflexivity|].
  cbn [print_from bind M_Monad]. unfold print at 1. cbn -[print_from].
  now rewrite IH.
Qed.

Lemma print_videos_keeps_self w : self (fst (print_videos w)) = self w.
Proof.
  unfold print_videos. cbn [bind M_Monad get_self].
  apply print_from_keeps_self.
Qed.

Lemma lookup_found d k h :
  key_of k = Some h ->
  existsb (has_key h) d = true ->
  exists e, find (has_key h) d = Some e /\ lookup d k = Ok (snd e).
Proof.
  intros Hk Hex. unfold lookup. rewrite Hk.
  destruct (find (has_key h) d) as [e|] eqn:E; [now exists e|].
  apply existsb_exists in Hex as (e & Hin & He).
  now rewrite (find_none _ _ E e Hin) in He.
Qed.

Lemma find_app_new d h e :
  existsb (has_key h) d = false ->
  has_key h e = true ->
  find (has_key h) (d ++ [e]) = Some e.
Proof.
  induction d as [|x d IH]; cbn [existsb app find]; intros Hd He.
  - now rewrite He.
  - apply orb_false_iff in Hd as [Hx Hd]. rewrite Hx. now apply IH.
Qed.

Lemma find_app_old d h e x :
  find (has_key h) d = Some x -> find (has_key h) (d ++ [e]) = Some x.
Proof.
  induction d as [|y d IH]; cbn [app find]; [discriminate|].
  destruct (has_key h y); [trivial | exact IH].
Qed.

(** X1.  A record inserted under a new identifier is what [get_video]
    returns for that identifier afterwards; inserted under an identifier
    the store already has, it changes nothing of what [get_video]
    returns for it. *)
Theorem get_video_after_insert v w :
  (contains (_videos (self w)) (video_id v) = Ok false ->
   snd (get_video (video_id v) (fst (add_video_data_object v w)))
   = Ok (Some v))
  /\ (contains (_videos (self w)) (video_id v) = Ok true ->
      snd (get_video (video_id v) (fst (add_video_data_object v w)))
      = snd (get_video (video_id v) w)).
Proof.
  split; intros Hc; rewrite add_video_data_object_effect, Hc; cbn [fst].
  - rewrite get_video_effect. cbn [self _videos].
    unfold contains in Hc. unfold lookup.
    destruct (key_of (video_id v)) as [h|] eqn:Ek; [|discriminate].
    injection Hc as Hc.
    rewrite (find_app_new _ h (video_id v, v) Hc); [reflexivity|].
    unfold has_key. cbn [fst]. now rewrite Ek, hkey_eqb_refl.
  - rewrite !get_video_effect. cbn [self].
    now destruct (lookup (_videos (self w)) (video_id v)) as [x|[]].
Qed.

(** X2.  [get_video] for an identifier the store does not have returns
    [None], prints two lines and leaves the store as it is; for a value
    that cannot be a key (a list or a dictionary) the [TypeError] of the
    lookup is not caught. *)
Theorem get_video_missing k w :
  (contains (_videos (self w)) k = Ok false ->
   get_video k w
   = (mkWorld (self w)
        (stdout w
         ++ [Text ("No video with ID '" +++ py_str k
                   +++ "' found in search results.");
             ExnText (KeyError k)])
        (files w),
      Ok None))
  /\ (hashable k = false -> get_video k w = (w, Raise TypeError)).
Proof.
  split; intros H; rewrite get_video_effect; unfold lookup.
  - unfold contains in H.
    destruct (key_of k) as [h|]; [|discriminate]. injection H as H.
    destruct (find (has_key h) (_videos (self w))) as [e|] eqn:E;
      [|reflexivity].
    apply find_some in E as [Hin He].
    assert (Hex : existsb (has_key h) (_videos (self w)) = true)
      by (apply existsb_exists; now exists e).
    congruence.
  - unfold hashable in H. now destruct (key_of k).
Qed.

(** *** What every store keeps *)

Lemma store_inv_insert d v h :
  store_inv d ->
  key_of (video_id v) = Some h ->
  existsb (has_key h) d = false ->
  store_inv (d ++ [(video_id v, v)]).
Proof.
  intros Hinv Hk. induction d as [|[k e] d IH]; intros Hex.
  - cbn. unfold hashable. now rewrite Hk.
  - cbn [existsb] in Hex. apply orb_false_iff in Hex as [He Hd].
    destruct Hinv as (-> & Hh & Hu & Hinv). cbn [app store_inv].
    repeat split; trivial; [|now apply IH].
    rewrite map_app, existsb_app, Hu. cbn [map snd existsb].
    unfold has_key in He. cbn [fst] in He. unfold same_id. rewrite Hk.
    destruct (key_of (video_id e)); [|reflexivity].
    now rewrite hkey_eqb_sym, He.
Qed.

Lemma add_video_data_object_keeps_inv v w :
  store_inv (_videos (self w)) ->
  store_inv (_videos (self (fst (add_video_data_object v w)))).
Proof.
  intros Hinv. rewrite add_video_data_object_effect. unfold contains.
  destruct (key_of (video_id v)) as [h|] eqn:Ek; [|exact Hinv].
  destruct (existsb (has_key h) (_videos (self w))) eqn:Ex; [exact Hinv|].
  cbn [fst self _videos]. now apply (store_inv_insert _ _ h).
Qed.

Lemma add_videos_keeps_inv videos w :
  store_inv (_videos (self w)) ->
  store_inv (_videos (self (fst (add_videos videos w)))).
Proof.
  apply (for_each_keeps
           (fun s s' => store_inv (_videos s) -> store_inv (_videos s'))
           add_video_data_object); auto.
  intros x w'. apply add_video_data_object_keeps_inv.
Qed.

Lemma after_store_call_keeps_inv c w :
  store_inv (_videos (self w)) ->
  store_inv (_videos (self (after_store_call w c))).
Proof.
  intros Hinv. destruct c; cbn [after_store_call].
  - rewrite add_video_as_object. now apply add_video_data_object_keeps_inv.
  - now apply add_video_data_object_keeps_inv.
  - now apply add_videos_keeps_inv.
  - now rewrite get_video_keeps_self.
  - exact Hinv.
  - now rewrite print_videos_keeps_self.
  - now rewrite write_videos_keeps_self.
Qed.

Lemma after_store_calls_keep_inv calls :
  forall w,
    store_inv (_videos (self w)) ->
    store_inv (_videos (self (after_store_calls calls w))).
Proof.
  unfold after_store_calls.
  induction calls as [|c calls IH]; intros w Hinv; [exact Hinv|].
  cbn [fold_left]. now apply IH, after_store_call_keeps_inv.
Qed.

Lemma store_inv_unique d : store_inv d -> unique_ids (map snd d) = true.
Proof.
  induction d as [|[k v] d IH]; [reflexivity|].
  intros (_ & _ & Hu & Hinv). cbn [map snd unique_ids].
  now rewrite Hu, IH.
Qed.

Lemma store_inv_keyed d e : store_inv d -> In e d -> fst e = video_id (snd e).
Proof.
  induction d as [|[k v] d IH]; [intros _ []|].
  intros (Hk & _ & _ & Hinv) [<- | Hin]; [exact Hk | now apply IH].
Qed.

(** X4.  Whatever methods are called on a store, in whatever order and
    with whatever arguments, starting from a new store, [get_videos] never
    lists two records with the same identifier. *)
Theorem store_never_lists_an_identifier_twice calls :
  unique_ids (values (self (after_store_calls calls fresh_store))) = true.
Proof.
  apply store_inv_unique, after_store_calls_keep_inv. exact I.
Qed.

(** X5.  After any calls on a new store, a record that [get_video]
    returns has the identifier that was asked for. *)
Theorem get_video_returns_the_identifier_asked_for calls k v :
  snd (get_video k (after_store_calls calls fresh_store)) = Ok (Some v) ->
  key_of k <> None /\ key_of (video_id v) = key_of k.
Proof.
  pose proof (after_store_calls_keep_inv calls fresh_store I) as Hinv.
  rewrite get_video_effect. unfold lookup.
  destruct (key_of k) as [h|]; [|discriminate].
  destruct (find (has_key h) _) as [e|] eqn:E; [|discriminate].
  cbn [snd]. intros [= <-]. split; [discriminate|].
  apply find_some in E as [Hin He].
  rewrite <- (store_inv_keyed _ _ Hinv Hin).
  unfold has_key in He. destruct (key_of (fst e)); [|discriminate].
  apply hkey_eqb_eq in He. now subst.
Qed.

Lemma add_video_data_object_grows v w :
  exists added,
    values (self (fst (add_video_data_object v w)))
    = values (self w) ++ added.
Proof.
  rewrite add_video_data_object_effect.
  destruct (contains (_videos (self w)) (video_id v)) as [[]|e].
  - exists []. now rewrite app_nil_r.
  - exists [v]. unfold values. cbn [fst self _videos].
    now rewrite map_app.
  - exists []. now rewrite app_nil_r.
Qed.

Lemma after_store_call_grows c w :
  exists added,
    values (self (after_store_call w c)) = values (self w) ++ added.
Proof.
  destruct c; cbn [after_store_call].
  - rewrite add_video_as_object. apply add_video_data_object_grows.
  - apply add_video_data_object_grows.
  - apply (for_each_keeps
             (fun s s' => exists added, values s' = values s ++ added)
             add_video_data_object).
    + intros s. exists []. now rewrite app_nil_r.
    + intros s1 s2 s3 [a1 H1] [a2 H2]. exists (a1 ++ a2).
      now rewrite H2, H1, app_assoc.
    + intros x w'. apply add_video_data_object_grows.
  - rewrite get_video_keeps_self. exists []. now rewrite app_nil_r.
  - exists []. now rewrite app_nil_r.
  - rewrite print_videos_keeps_self. exists []. now rewrite app_nil_r.
  - rewrite write_videos_keeps_self. exists []. now rewrite app_nil_r.
Qed.

(** X6.  No method removes, replaces or reorders a record: after any
    calls, on any store, [get_videos] lists the records it listed before,
    in the same order, followed by the new ones. *)
Theorem store_only_grows calls w :
  exists added,
    values (self (after_store_calls calls w)) = values (self w) ++ added.
Proof.
  unfold after_store_calls. revert w.
  induction calls as [|c calls IH]; intros w.
  - exists []. now rewrite app_nil_r.
  - cbn [fold_left]. destruct (IH (after_store_call w c)) as [a2 H2].
    destruct (after_store_call_grows c w) as [a1 H1].
    exists (a1 ++ a2). now rewrite H2, H1, app_assoc.
Qed.

End StoreSessions.

Section StoreBatches.
Import VideoDataManager.
Context {R : Repr}.

(** X3.  [add_video] does what [add_video_data_object] does with the
    record built from its arguments, whose URL is derived from the
    identifier. *)
Theorem add_video_builds_then_inserts
    (i th ti le ch cu ct up vc : json) (w : world t) :
  add_video i th ti le ch cu ct up vc w
  = add_video_data_object
      (new_Video i (watch_url i) th ti le ch cu ct up vc) w
  /\ (contains (_videos (self w)) i = Ok false ->
      snd (get_video i (fst (add_video i th ti le ch cu ct up vc w)))
      = Ok (Some (new_Video i (watch_url i) th ti le ch cu ct up vc))).
Proof.
  split; [reflexivity|]. intros Hc.
  rewrite add_video_as_object, add_video_data_object_effect.
  cbn [video_id]. rewrite Hc. cbn [fst].
  rewrite get_video_effect. cbn [self _videos].
  unfold contains in Hc. unfold lookup.
  destruct (key_of i) as [h|] eqn:Ek; [|discriminate].
  injection Hc as Hc.
  rewrite (find_app_new _ h _ Hc); [reflexivity|].
  unfold has_key. cbn [fst]. now rewrite Ek, hkey_eqb_refl.
Qed.

Lemma add_videos_cons v rest w :
  add_videos (v :: rest) w
  = match add_video_data_object v w with
    | (w', Ok _) => add_videos rest w'
    | stopped => stopped
    end.
Proof.
  unfold add_videos. cbn [for_each bind M_Monad].
  now destruct (add_video_data_object v w) as [w' [[]|e]].
Qed.

Lemma add_videos_returns videos :
  forall w, hashable_ids videos = true -> snd (add_videos videos w) = Ok tt.
Proof.
  induction videos as [|v rest IH]; intros w Hh; [reflexivity|].
  cbn [hashable_ids forallb] in Hh. apply andb_true_iff in Hh as [Hv Hrest].
  rewrite add_videos_cons, add_video_data_object_effect.
  unfold contains, hashable in *.
  destruct (key_of (video_id v)) as [h|]; [|discriminate].
  destruct (existsb (has_key h) (_videos (self w))); now apply IH.
Qed.

(** X7.  Every record passed to [add_videos] is either stored or
    reported: when the identifiers are hashable the call returns normally,
    and the records added plus the lines printed are as many as the
    records passed. *)
Theorem add_videos_stores_or_reports videos :
  forall w,
    hashable_ids videos = true ->
    snd (add_videos videos w) = Ok tt
    /\ List.length (values (self (fst (add_videos videos w))))
       + List.length (stdout (fst (add_videos videos w)))
       = List.length (values (self w)) + List.length (stdout w)
         + List.length videos.
Proof.
  induction videos as [|v rest IH]; intros w Hh.
  - cbn. split; [reflexivity | lia].
  - cbn [hashable_ids forallb] in Hh. apply andb_true_iff in Hh as [Hv Hrest].
    rewrite add_videos_cons, add_video_data_object_effect.
    unfold contains, hashable in *.
    destruct (key_of (video_id v)) as [h|]; [|discriminate].
    destruct (existsb (has_key h) (_videos (self w)));
      match goal with
      | |- context [add_videos rest ?w'] => destruct (IH w' Hrest) as [Hr Hl]
      end;
      (split; [exact Hr|]); rewrite Hl; unfold values;
      cbn [self stdout _videos List.length];
      rewrite ?length_app, ?length_map, ?length_app; cbn [List.length]; lia.
Qed.

(** X8.  [add_videos] stops at the first record whose identifier cannot be
    a key: the [TypeError] of the membership test reaches the caller, the
    records before it have been handled, and the records after it have
    not. *)
Theorem add_videos_stops_at_unhashable before v after w :
  hashable_ids before = true ->
  hashable (video_id v) = false ->
  add_videos (before ++ v :: after) w
  = (fst (add_videos before w), Raise TypeError).
Proof.
  intros Hb Hv. unfold add_videos at 1. rewrite for_each_app.
  fold (add_videos before w).
  pose proof (add_videos_returns before w Hb) as Hr.
  destruct (add_videos before w) as [w' r]. cbn [fst snd] in *. subst r.
  fold (add_videos (v :: after) w').
  rewrite add_videos_cons, add_video_data_object_effect.
  unfold contains, hashable in *. now destruct (key_of (video_id v)).
Qed.

End StoreBatches.

(** ** The parser and the store together *)

Section TwoRounds.
Import VideoDataManager.
Context {R : Repr}.

Lemma first_seen_same_earlier videos :
  forall earlier earlier',
    (forall v, existsb (same_id v) earlier = existsb (same_id v) earlier') ->
    first_seen earlier videos = first_seen earlier' videos.
Proof.
  induction videos as [|v rest IH]; intros E E' H; [reflexivity|].
  cbn [first_seen]. rewrite (H v). f_equal. apply IH.
  intros x. now rewrite !existsb_app, (H x).
Qed.

Lemma first_seen_all_met videos :
  forall earlier,
    (forall v, In v videos -> existsb (same_id v) earlier = true) ->
    first_seen earlier videos = [].
Proof.
  induction videos as [|v rest IH]; intros E H; [reflexivity|].
  cbn [first_seen]. rewrite (H v) by now left. cbn [app]. apply IH.
  intros x Hx. rewrite existsb_app, (H x) by now right. reflexivity.
Qed.

Lemma same_id_refl v : hashable (video_id v) = true -> same_id v v = true.
Proof.
  unfold hashable, same_id. destruct (key_of (video_id v)); [|discriminate].
  intros _. apply hkey_eqb_refl.
Qed.

Lemma first_seen_again earlier videos rest :
  hashable_ids videos = true ->
  first_seen (earlier ++ videos) (videos ++ rest)
  = first_seen (earlier ++ videos) rest.
Proof.
  intros Hh. rewrite first_seen_app, first_seen_all_met.
  - cbn [app]. apply first_seen_same_earlier.
    intros v. rewrite !existsb_app. now destruct (existsb (same_id v) videos);
      rewrite ?orb_true_r, ?orb_false_r.
  - intros v Hv. rewrite existsb_app. apply orb_true_iff. right.
    apply existsb_exists. exists v. split; [exact Hv|].
    apply same_id_refl. unfold hashable_ids in Hh.
    rewrite forallb_forall in Hh. now apply Hh.
Qed.

Lemma add_videos_returns_hashable videos :
  forall w, snd (add_videos videos w) = Ok tt -> hashable_ids videos = true.
Proof.
  induction videos as [|v rest IH]; intros w H; [reflexivity|].
  rewrite add_videos_cons, add_video_data_object_effect in H.
  unfold contains in H. cbn [hashable_ids forallb]. unfold hashable.
  destruct (key_of (video_id v)) as [h|]; [|discriminate].
  destruct (existsb (has_key h) (_videos (self w)));
    apply IH in H; exact H.
Qed.

Lemma tracks_repeated seen more d :
  tracks (seen ++ seen ++ more) d -> tracks (seen ++ more) d.
Proof.
  intros H h. rewrite <- (H h), !existsb_app.
  now destruct (existsb (key_is h) seen).
Qed.

(** One turn of the caller's loop. *)
Lemma parse_and_add_cons page pages w :
  parse_and_add (page :: pages) w
  = match
      SearchResultsJSONParser.parse_video_results page
        (mkWorld (fst (self w)) (stdout w) (files w))
    with
    | (pw, Raise e) =>
        (mkWorld (self pw, snd (self w)) (stdout pw) (files pw), Raise e)
    | (pw, Ok _) =>
        match
          add_videos (SearchResultsJSONParser._videos (self pw))
            (mkWorld (snd (self w)) (stdout pw) (files pw))
        with
        | (sw, Raise e) =>
            (mkWorld (self pw, self sw) (stdout sw) (files sw), Raise e)
        | (sw, Ok _) =>
            parse_and_add pages
              (mkWorld (self pw, self sw) (stdout sw) (files sw))
        end
    end.
Proof.
  unfold parse_and_add. cbn [for_each bind M_Monad].
  unfold on_parser at 1. cbn [self stdout files fst snd].
  destruct (SearchResultsJSONParser.parse_video_results page _)
    as [pw [[]|e]]; [|reflexivity].
  cbn [self stdout files fst snd].
  unfold on_parser at 1, SearchResultsJSONParser.get_video_results.
  cbn [bind M_Monad get_self ret self stdout files fst snd].
  unfold on_store at 1. cbn [self stdout files fst snd].
  destruct (add_videos _ _) as [sw [[]|e]]; reflexivity.
Qed.

Lemma parse_and_add_effect pages :
  forall w,
    tracks (SearchResultsJSONParser._videos (fst (self w)))
      (_videos (snd (self w))) ->
    values (snd (self w))
    = first_seen [] (SearchResultsJSONParser._videos (fst (self w))) ->
    hashable_ids (SearchResultsJSONParser._videos (fst (self w))) = true ->
    snd (parse_and_add pages w) = Ok tt ->
    SearchResultsJSONParser._videos (fst (self (fst (parse_and_add pages w))))
    = SearchResultsJSONParser._videos (fst (self w))
      ++ List.concat (map records_of pages)
    /\ values (snd (self (fst (parse_and_add pages w))))
       = first_seen []
           (SearchResultsJSONParser._videos (fst (self w))
            ++ List.concat (map records_of pages)).
Proof.
  induction pages as [|page pages IH]; intros w Htr Hvals Hh Hok.
  - cbn. now rewrite app_nil_r.
  - rewrite parse_and_add_cons in *.
    pose proof (parse_video_results_appends page
                  (mkWorld (fst (self w)) (stdout w) (files w))) as Hp.
    destruct (SearchResultsJSONParser.parse_video_results page _)
      as [pw [[]|e]]; [|discriminate].
    cbn [fst self] in Hp.
    pose proof (add_videos_returns_hashable
                  (SearchResultsJSONParser._videos (self pw))
                  (mkWorld (snd (self w)) (stdout pw) (files pw))) as Hh'.
    pose proof (add_videos_effect
                  (SearchResultsJSONParser._videos (self pw))
                  (mkWorld (snd (self w)) (stdout pw) (files pw))
                  (SearchResultsJSONParser._videos (fst (self w))) Htr)
      as He.
    destruct (add_videos _ _) as [sw [[]|e]]; [|discriminate].
    cbn [fst snd self] in *. specialize (Hh' eq_refl).
    destruct (He Hh') as (_ & Hv & Htr').
    cbn [List.concat map]. rewrite !app_assoc, <- Hp.
    apply (IH (mkWorld (self pw, self sw) (stdout sw) (files sw)));
      cbn [fst snd self]; trivial.
    + rewrite Hp. apply tracks_repeated. now rewrite <- Hp.
    + rewrite Hv, Hvals, Hp.
      rewrite (first_seen_again [] _ (records_of page) Hh).
      now rewrite first_seen_app.
Qed.

(** X9.  A caller that passes [get_video_results] to [add_videos] after
    every page passes the same records again and again, because the
    parser's list only grows.  This does no harm: whenever the calls all
    return, the parser holds the records of all the pages, repeated
    identifiers included, and the store lists them in the order they were
    parsed, each identifier once, as if every record had been added a
    single time. *)
Theorem adding_after_every_page_keeps_each_identifier_once pages :
  snd (parse_and_add pages fresh_program) = Ok tt ->
  SearchResultsJSONParser._videos
    (fst (self (fst (parse_and_add pages fresh_program))))
  = List.concat (map records_of pages)
  /\ values (snd (self (fst (parse_and_add pages fresh_program))))
     = first_seen [] (List.concat (map records_of pages)).
Proof.
  intros Hok.
  apply (parse_and_add_effect pages fresh_program); trivial.
  intros h. reflexivity.
Qed.

End TwoRounds.

(** ** More on the results parser *)

Section ParserSessions.
Import SearchResultsJSONParser.
Context {R : Repr}.

Lemma parse_video_results_json doc w :
  _json (self (fst (parse_video_results doc w))) = doc.
Proof.
  rewrite parse_video_results_effect.
  now destruct (entries_effect _) as [[vs ls] r].
Qed.

(** X11.  Passing the document to the constructor is the same as building
    the parser without one and calling [parse_video_results] on it; this
    holds for [None] too, for which there is nothing to parse. *)
Theorem constructor_parses_its_document doc w :
  init doc w = parse_video_results doc (fst (init JNull w)).
Proof.
  destruct doc; reflexivity.
Qed.

Lemma entries_effect_readable videos :
  forallb parses_or_skips videos = true ->
  snd (entries_effect videos) = Ok tt
  /\ fst (fst (entries_effect videos)) = readable_videos videos.
Proof.
  induction videos as [|video rest IH]; intros H; [now split|].
  cbn [forallb] in H. apply andb_true_iff in H as [Hv Hrest].
  destruct (IH Hrest) as [Hr Hvs].
  cbn [entries_effect readable_videos flat_map].
  fold (readable_videos rest).
  unfold parses_or_skips in Hv. unfold entry_effect.
  destruct (getitem video (Key "videoId")) as [id|]; [|discriminate].
  destruct (read_video video id) as [v|[]]; try discriminate;
    destruct (entries_effect rest) as [[vs ls] r]; cbn [fst snd] in *;
    subst; now split.
Qed.

(** X12.  When every entry of the document has a ["videoId"] and reading
    its fields either succeeds or fails on a missing key,
    [parse_video_results] returns normally and appends exactly the entries
    that can be read, in the order of the document. *)
Theorem parse_keeps_the_readable_entries doc w :
  forallb parses_or_skips (_gen_dict_extract "compactVideoRenderer" doc)
  = true ->
  snd (parse_video_results doc w) = Ok tt
  /\ _videos (self (fst (parse_video_results doc w)))
     = _videos (self w)
       ++ readable_videos (_gen_dict_extract "compactVideoRenderer" doc).
Proof.
  intros H. destruct (entries_effect_readable _ H) as [Hr Hvs].
  rewrite parse_video_results_effect.
  destruct (entries_effect _) as [[vs ls] r]. cbn [fst snd] in *.
  now subst.
Qed.

Lemma entries_effect_count videos :
  snd (entries_effect videos) = Ok tt ->
  2 * List.length videos
  = 2 * List.length (fst (fst (entries_effect videos)))
    + List.length (snd (fst (entries_effect videos))).
Proof.
  induction videos as [|video rest IH]; [reflexivity|].
  cbn [entries_effect]. unfold entry_effect.
  destruct (getitem video (Key "videoId")) as [id|]; [|discriminate].
  destruct (read_video video id) as [v|[]]; try discriminate;
    destruct (entries_effect rest) as [[vs ls] r]; cbn [fst snd] in *;
    intros Hr; specialize (IH Hr); cbn [List.length app]; lia.
Qed.

(** X13.  No entry is lost without a trace: when [parse_video_results]
    returns normally, every entry the extractor yielded has either become
    a record or been reported with two printed lines. *)
Theorem parse_appends_or_reports doc w :
  snd (parse_video_results doc w) = Ok tt ->
  2 * List.length (_gen_dict_extract "compactVideoRenderer" doc)
  + 2 * List.length (_videos (self w)) + List.length (stdout w)
  = 2 * List.length (_videos (self (fst (parse_video_results doc w))))
    + List.length (stdout (fst (parse_video_results doc w))).
Proof.
  rewrite parse_video_results_effect.
  pose proof (entries_effect_count
                (_gen_dict_extract "compactVideoRenderer" doc)) as H.
  destruct (entries_effect _) as [[vs ls] r].
  cbn [fst snd self stdout _videos] in *.
  intros Hr. specialize (H Hr). rewrite !length_app. lia.
Qed.

Lemma entries_effect_raises videos video id e :
  In video videos ->
  getitem video (Key "videoId") = Ok id ->
  read_video video id = Raise e ->
  is_KeyError e = false ->
  exists e', snd (entries_effect videos) = Raise e'.
Proof.
  intros Hin Hid Hread He.
  induction videos as [|x rest IH]; [destruct Hin|].
  cbn [entries_effect].
  destruct (entry_effect x) as [[vs ls] [[]|e0]] eqn:Ex.
  - destruct Hin as [->|Hin].
    + unfold entry_effect in Ex. rewrite Hid, Hread in Ex.
      destruct e; discriminate.
    + destruct (IH Hin) as [e' He'].
      destruct (entries_effect rest) as [[vs' ls'] r]. now exists e'.
  - now exists e0.
Qed.

(** X14.  Only a missing key is forgiven.  If reading the fields of some
    entry fails in another way (an [IndexError] on an empty list, a
    [TypeError] on a value of the wrong shape), [parse_video_results] does
    not return normally: an exception reaches the caller. *)
Theorem parse_raises_on_other_errors doc w video id e :
  In video (_gen_dict_extract "compactVideoRenderer" doc) ->
  getitem video (Key "videoId") = Ok id ->
  read_video video id = Raise e ->
  is_KeyError e = false ->
  exists e', snd (parse_video_results doc w) = Raise e'.
Proof.
  intros Hin Hid Hread He.
  destruct (entries_effect_raises _ _ _ _ Hin Hid Hread He) as [e' He'].
  rewrite parse_video_results_effect.
  destruct (entries_effect _) as [[vs ls] r]. now exists e'.
Qed.

Lemma next_continuation_of_json w w' :
  _json (self w) = _json (self w') ->
  snd (get_next_continuation_data w) = snd (get_next_continuation_data w').
Proof.
  intros H. unfold get_next_continuation_data, try_except, lift, print.
  cbn -[_gen_dict_extract getitem]. rewrite H.
  destruct (_gen_dict_extract "nextContinuationData" (_json (self w')))
    as [|x rest]; [reflexivity|].
  cbn -[getitem].
  destruct (getitem x (Key "continuation")) as [c|[]]; try reflexivity.
  cbn -[getitem].
  destruct (getitem x (Key "clickTrackingParams")) as [p|[]]; reflexivity.
Qed.

Lemma estimated_count_of_json w w' :
  _json (self w) = _json (self w') ->
  snd (get_estimated_results_count w) = snd (get_estimated_results_count w').
Proof.
  intros H. unfold get_estimated_results_count, lift.
  cbn -[getitem py_int]. rewrite H.
  now destruct (getitem (_json (self w')) (Key "estimatedResults")).
Qed.

(** X15.  Records accumulate, the document does not: after
    [parse_video_results], the estimated count and the continuation data
    are those of the document just parsed, whatever the parser held before
    and whether or not the call raised. *)
Theorem queries_follow_the_last_document doc w :
  snd (get_estimated_results_count (fst (parse_video_results doc w)))
  = snd (get_estimated_results_count (parser_holding doc))
  /\ snd (get_next_continuation_data (fst (parse_video_results doc w)))
     = snd (get_next_continuation_data (parser_holding doc)).
Proof.
  split.
  - apply estimated_count_of_json. now rewrite parse_video_results_json.
  - apply next_continuation_of_json. now rewrite parse_video_results_json.
Qed.

End ParserSessions.

Section ParserInvariants.
Import SearchResultsJSONParser.
Context {R : Repr}.

Lemma read_video_fields video id v :
  read_video video id = Ok v ->
  video_id v = id /\ video_url v = watch_url id.
Proof.
  unfold read_video. cbn [bind result_Monad ret].
  repeat match goal with
         | |- context [match get_path ?x ?p with _ => _ end] =>
             destruct (get_path x p); [|discriminate]
         end.
  intros [= <-]. now split.
Qed.

Lemma entries_effect_urls videos :
  Forall (fun v => video_url v = watch_url (video_id v))
    (fst (fst (entries_effect videos))).
Proof.
  induction videos as [|video rest IH]; [constructor|].
  cbn [entries_effect]. unfold entry_effect.
  destruct (getitem video (Key "videoId")) as [id|]; [|constructor].
  destruct (read_video video id) as [v|[]] eqn:E; try constructor;
    destruct (entries_effect rest) as [[vs ls] r]; cbn [fst snd app] in *;
    trivial.
  constructor; [|exact IH].
  apply read_video_fields in E as [-> ->]. reflexivity.
Qed.

Lemma parse_video_results_keeps_urls doc w :
  Forall (fun v => video_url v = watch_url (video_id v)) (_videos (self w)) ->
  Forall (fun v => video_url v = watch_url (video_id v))
    (_videos (self (fst (parse_video_results doc w)))).
Proof.
  intros H. rewrite parse_video_results_effect.
  pose proof (entries_effect_urls
                (_gen_dict_extract "compactVideoRenderer" doc)) as Hn.
  destruct (entries_effect _) as [[vs ls] r]. cbn [fst snd self _videos] in *.
  apply Forall_app. now split.
Qed.

(** X16.  Whatever documents a new parser is given, one after the other,
    the URL of every record it holds is the watch URL of the record's own
    identifier. *)
Theorem parser_records_have_derived_urls docs :
  Forall (fun v => video_url v = watch_url (video_id v))
    (_videos (self (after_parses docs fresh_parser))).
Proof.
  unfold after_parses.
  assert (H : Forall (fun v => video_url v = watch_url (video_id v))
                (_videos (self fresh_parser))) by constructor.
  revert H. generalize fresh_parser as w.
  induction docs as [|doc docs IH]; intros w H; [exact H|].
  cbn [fold_left]. now apply IH, parse_video_results_keeps_urls.
Qed.

Lemma occurs_entry key k v d :
  In (k, v) d ->
  String.eqb k key || occurs key v = true ->
  occurs key (JDict d) = true.
Proof.
  induction d as [|[k' v'] d IH]; [intros []|].
  rewrite occurs_dict_cons. intros Hin Hk. destruct Hin as [E | Hin].
  - injection E as -> ->. now rewrite Hk.
  - rewrite (IH Hin Hk). apply orb_true_r.
Qed.

Lemma stored_occurs key n var x :
  stored_at key n var x -> occurs key var = true.
Proof.
  induction 1 as [d x Hin | d k d' n x Hin _ IH | d k l d' n x Hin He _ IH].
  - apply (occurs_entry key key x d Hin). now rewrite String.eqb_refl.
  - apply (occurs_entry key k (JDict d') d Hin). rewrite IH. apply orb_true_r.
  - apply (occurs_entry key k (JList l) d Hin).
    apply orb_true_iff. right. cbn [occurs]. apply existsb_exists.
    now exists (JDict d').
Qed.

Lemma gen_nothing_without_key key var :
  occurs key var = false -> _gen_dict_extract key var = [].
Proof.
  intros Hocc. destruct (_gen_dict_extract key var) as [|x rest] eqn:E;
    [reflexivity|].
  destruct (yielded_is_stored key var x) as [n Hn]; [rewrite E; now left|].
  apply stored_occurs in Hn. congruence.
Qed.

(** X17.  A document without any ["compactVideoRenderer"] key (the empty
    document, a page of advertisements only) is not an error:
    [parse_video_results] returns normally, becomes the current document,
    and adds and prints nothing. *)
Theorem parse_without_entries doc w :
  occurs "compactVideoRenderer" doc = false ->
  parse_video_results doc w
  = (mkWorld (new doc (_videos (self w))) (stdout w) (files w), Ok tt).
Proof.
  intros H. unfold parse_video_results.
  cbn [bind M_Monad get_self set_self].
  now rewrite (gen_nothing_without_key _ _ H).
Qed.

(** X18.  The methods that read the parser leave its document and its
    records as they are, whether they return or raise:
    [get_estimated_results_count], [get_video_results],
    [get_next_continuation_data], [print_results_json] and
    [write_results_json_to_file]. *)
Theorem parser_readers_keep_the_parser {D : Dump} {F : FileSystem}
    filename w :
  self (fst (get_estimated_results_count w)) = self w
  /\ self (fst (get_video_results w)) = self w
  /\ self (fst (get_next_continuation_data w)) = self w
  /\ self (fst (print_results_json w)) = self w
  /\ self (fst (write_results_json_to_file filename w)) = self w.
Proof.
  split; [|split; [|split; [|split]]]; try reflexivity.
  3: { unfold write_results_json_to_file. cbn [bind M_Monad get_self].
       apply write_file_keeps. }
  - unfold get_estimated_results_count, lift. cbn -[getitem py_int].
    now destruct (getitem (_json (self w)) (Key "estimatedResults")).
  - unfold get_next_continuation_data, try_except, lift, print.
    cbn -[_gen_dict_extract getitem].
    destruct (_gen_dict_extract "nextContinuationData" (_json (self w)))
      as [|x rest]; [reflexivity|].
    cbn -[getitem].
    destruct (getitem x (Key "continuation")) as [c|[]]; try reflexivity.
    cbn -[getitem].
    destruct (getitem x (Key "clickTrackingParams")) as [p|[]]; reflexivity.
Qed.

End ParserInvariants.

Section StoreReaders.
Import VideoDataManager.
Context {R : Repr} {F : FileSystem}.

(** X10.  The methods that read the store leave it as it is, whether they
    return or raise: [get_video], [get_videos], [print_videos] and
    [write_videos_to_markdown_file]; and only the last one touches a
    file. *)
Theorem store_readers_keep_the_store k filename w :
  (self (fst (get_video k w)) = self w
   /\ files (fst (get_video k w)) = files w)
  /\ fst (get_videos w) = w
  /\ (self (fst (print_videos w)) = self w
      /\ files (fst (print_videos w)) = files w)
  /\ (self (fst (write_videos_to_markdown_file filename w)) = self w
      /\ stdout (fst (write_videos_to_markdown_file filename w)) = stdout w).
Proof.
  split; [|split; [|split]]; try (split; reflexivity); try reflexivity.
  3: { unfold write_videos_to_markdown_file. cbn [bind M_Monad get_self].
       apply write_file_keeps. }
  - split; [apply get_video_keeps_self|].
    rewrite get_video_effect.
    now destruct (lookup (_videos (self w)) k) as [v|[]].
  - split; [apply print_videos_keeps_self|].
    unfold print_videos. cbn [bind M_Monad get_self].
    rewrite (print_from_effect (values (self w)) 1 w). reflexivity.
Qed.

End StoreReaders.

(** ** More on the extractor *)

Section ExtractorAlgebra.
Import SearchResultsJSONParser.

(** X19.  Extraction goes entry by entry: what a map yields is what its
    first entries yield followed by what the remaining entries yield. *)
Theorem extraction_distributes_over_entries key d1 d2 :
  _gen_dict_extract key (JDict (d1 ++ d2))
  = _gen_dict_extract key (JDict d1) ++ _gen_dict_extract key (JDict d2).
Proof.
  induction d1 as [|[k v] d1 IH]; [reflexivity|].
  cbn [app]. rewrite !gen_dict_cons, IH, <- !app_assoc. reflexivity.
Qed.

End ExtractorAlgebra.

(** ** The search URL *)

Section SearchUrl.
Import search_results_scraper.
Context {R : Repr}.

(** X20.  The URL [get_json_for_search] requests is the first-page URL,
    followed by the three token parameters when both tokens are true
    values.  When either token is missing or empty the tokens are left out
    and the first page is requested again.  [sort_by_recent] has no effect
    on the URL. *)
Theorem search_url_uses_both_tokens_or_none
    (query continuation_token clicking_param_token : json)
    (sort_by_recent sort_by_recent' use_mobile : bool) :
  (truthy continuation_token = true ->
   truthy clicking_param_token = true ->
   search_url query continuation_token clicking_param_token sort_by_recent
     use_mobile
   = search_url query JNull JNull sort_by_recent use_mobile
     +++ "&ctoken=" +++ py_str continuation_token
     +++ "&continuation=" +++ py_str continuation_token
     +++ "&itct=" +++ py_str clicking_param_token)
  /\ (truthy continuation_token && truthy clicking_param_token = false ->
      search_url query continuation_token clicking_param_token sort_by_recent
        use_mobile
      = search_url query JNull JNull sort_by_recent use_mobile)
  /\ search_url query continuation_token clicking_param_token sort_by_recent
       use_mobile
     = search_url query continuation_token clicking_param_token
         sort_by_recent' use_mobile.
Proof.
  split; [|split]; [| |reflexivity].
  - intros Ht Hp. unfold search_url. rewrite Ht, Hp.
    cbn [andb truthy py_join]. destruct use_mobile;
      rewrite !append_assoc; reflexivity.
  - intros H. unfold search_url. rewrite H. reflexivity.
Qed.

End SearchUrl.

(** ** Instances of the properties above *)

Section Instances.
Import VideoDataManager.

Lemma get_video_after_insert_witness :
  snd (get_video (R := no_compound) (JStr "z")
         (fst (add_video_data_object (R := no_compound) (video_of_entry "z")
                 store_x_y)))
  = Ok (Some (video_of_entry "z")).
Proof.
  apply (proj1 (get_video_after_insert (R := no_compound)
                  (video_of_entry "z") store_x_y)).
  reflexivity.
Defined.

Lemma get_video_missing_witness :
  get_video (R := no_compound) (JStr "z") store_x_y
  = (mkWorld (self store_x_y)
       [Text "No video with ID 'z' found in search results.";
        ExnText (KeyError (JStr "z"))]
       [],
     Ok None).
Proof.
  apply (proj1 (get_video_missing (R := no_compound) (JStr "z") store_x_y)).
  reflexivity.
Defined.

Lemma get_video_returns_the_identifier_asked_for_witness :
  key_of (JStr "x") <> None
  /\ key_of (video_id (video_of_entry "x")) = key_of (JStr "x").
Proof.
  apply (get_video_returns_the_identifier_asked_for (R := no_compound)
           (F := plain_disk)
           [AddVideos [video_of_entry "x"; video_of_entry "y"];
            GetVideo (JStr "q");
            AddVideoDataObject (retitled "x" "Another title")]
           (JStr "x") (video_of_entry "x")).
  reflexivity.
Defined.

Lemma add_videos_stores_or_reports_witness :
  snd (add_videos (R := no_compound)
         [video_of_entry "x"; video_of_entry "y";
          retitled "x" "Another title"]
         fresh_store)
  = Ok tt
  /\ List.length
       (values
          (self (fst (add_videos (R := no_compound)
                        [video_of_entry "x"; video_of_entry "y";
                         retitled "x" "Another title"]
                        fresh_store))))
     + List.length
         (stdout (fst (add_videos (R := no_compound)
                         [video_of_entry "x"; video_of_entry "y";
                          retitled "x" "Another title"]
                         fresh_store)))
     = List.length (values (self fresh_store))
       + List.length (stdout fresh_store) + 3.
Proof.
  apply (add_videos_stores_or_reports (R := no_compound)
           [video_of_entry "x"; video_of_entry "y";
            retitled "x" "Another title"]
           fresh_store).
  reflexivity.
Defined.

Lemma add_videos_stops_at_unhashable_witness :
  add_videos (R := no_compound)
    ([video_of_entry "x"] ++ with_id (JList []) :: [video_of_entry "y"])
    fresh_store
  = (fst (add_videos (R := no_compound) [video_of_entry "x"] fresh_store),
     Raise TypeError).
Proof.
  apply (add_videos_stops_at_unhashable (R := no_compound)
           [video_of_entry "x"] (with_id (JList [])) [video_of_entry "y"]
           fresh_store);
    reflexivity.
Defined.

Lemma adding_after_every_page_keeps_each_identifier_once_witness :
  SearchResultsJSONParser._videos
    (fst (self (fst (parse_and_add (R := no_compound)
                       [page_two_videos; page_second] fresh_program))))
  = List.concat
      (map (records_of (R := no_compound)) [page_two_videos; page_second])
  /\ values
       (snd (self (fst (parse_and_add (R := no_compound)
                          [page_two_videos; page_second] fresh_program))))
     = first_seen []
         (List.concat
            (map (records_of (R := no_compound))
               [page_two_videos; page_second])).
Proof.
  apply (adding_after_every_page_keeps_each_identifier_once
           (R := no_compound) [page_two_videos; page_second]).
  reflexivity.
Defined.

End Instances.

Section ParserInstances.
Import SearchResultsJSONParser.

Lemma parse_keeps_the_readable_entries_witness :
  snd (parse_video_results (R := no_compound) page_missing_title fresh_parser)
  = Ok tt
  /\ _videos
       (self (fst (parse_video_results (R := no_compound) page_missing_title
                     fresh_parser)))
     = _videos (self fresh_parser)
       ++ readable_videos (R := no_compound)
            (_gen_dict_extract "compactVideoRenderer" page_missing_title).
Proof.
  apply (parse_keeps_the_readable_entries (R := no_compound)
           page_missing_title fresh_parser).
  reflexivity.
Defined.

Lemma parse_appends_or_reports_witness :
  2 * List.length (_gen_dict_extract "compactVideoRenderer" page_missing_title)
  + 2 * List.length (_videos (self fresh_parser))
  + List.length (stdout fresh_parser)
  = 2 * List.length
          (_videos
             (self (fst (parse_video_results (R := no_compound)
                           page_missing_title fresh_parser))))
    + List.length
        (stdout (fst (parse_video_results (R := no_compound)
                        page_missing_title fresh_parser))).
Proof.
  apply (parse_appends_or_reports (R := no_compound) page_missing_title
           fresh_parser).
  reflexivity.
Defined.

Lemma parse_raises_on_other_errors_witness :
  exists e',
    snd (parse_video_results (R := no_compound) page_without_thumbnails
           fresh_parser)
    = Raise e'.
Proof.
  apply (parse_raises_on_other_errors (R := no_compound)
           page_without_thumbnails fresh_parser
           (JDict (entry_without_thumbnails "b")) (JStr "b") IndexError).
  - right. left. reflexivity.
  - reflexivity.
  - reflexivity.
  - reflexivity.
Defined.

Lemma parse_without_entries_witness :
  parse_video_results (R := no_compound) mixed_document fresh_parser
  = (mkWorld (new mixed_document (_videos (self fresh_parser)))
       (stdout fresh_parser) (files fresh_parser),
     Ok tt).
Proof.
  apply (parse_without_entries (R := no_compound) mixed_document fresh_parser).
  reflexivity.
Defined.

Lemma search_url_uses_both_tokens_or_none_witness :
  search_results_scraper.search_url (R := no_compound) (JStr "python")
    (JStr "token") (JStr "params") true true
  = search_results_scraper.search_url (R := no_compound) (JStr "python")
      JNull JNull true true
    +++ "&ctoken=" +++ "token" +++ "&continuation=" +++ "token"
    +++ "&itct=" +++ "params".
Proof.
  apply (proj1 (search_url_uses_both_tokens_or_none (R := no_compound)
                  (JStr "python") (JStr "token") (JStr "params")
                  true true true));
    reflexivity.
Defined.

End ParserInstances.

(** ** [int] of the text of an integer *)

Section IntOfStr.
Import SearchResultsJSONParser.

Lemma digits_of_uint d :
  forall acc,
    digits acc true (list_ascii_of_string (NilEmpty.string_of_uint d))
    = Some (uint_value d acc).
Proof.
  induction d; intros acc; cbn [NilEmpty.string_of_uint list_ascii_of_string
                                 uint_value];
    [reflexivity | ..]; cbn [digits]; apply IHd.
Qed.

Lemma uint_value_pos d :
  forall p, uint_value d (Z.pos p) = Z.pos (Pos.of_uint_acc d p).
Proof.
  induction d; intros p; cbn [uint_value Pos.of_uint_acc]; [reflexivity | ..];
    rewrite <- IHd; f_equal; lia.
Qed.

Lemma uint_value_0 d : uint_value d 0 = Z.of_N (Pos.of_uint d).
Proof.
  induction d; cbn [uint_value Pos.of_uint]; [reflexivity | exact IHd | ..];
    cbn [Z.mul Z.add Z.of_N]; apply uint_value_pos.
Qed.

Lemma uint_no_space d :
  forallb (fun c => negb (is_space c))
    (list_ascii_of_string (NilEmpty.string_of_uint d)) = true.
Proof.
  induction d; cbn [NilEmpty.string_of_uint list_ascii_of_string forallb];
    [reflexivity | ..]; rewrite IHd; reflexivity.
Qed.

Lemma lstrip_no_space cs :
  forallb (fun c => negb (is_space c)) cs = true -> lstrip cs = cs.
Proof.
  destruct cs as [|c cs]; [reflexivity|]. cbn [forallb lstrip].
  intros [Hc _]%andb_true_iff. now destruct (is_space c).
Qed.

Lemma strip_no_space cs :
  forallb (fun c => negb (is_space c)) cs = true -> strip cs = cs.
Proof.
  intros H. unfold strip. rewrite (lstrip_no_space cs H).
  rewrite lstrip_no_space; [apply rev_involutive|].
  apply forallb_forall. intros c Hc. apply in_rev in Hc.
  rewrite forallb_forall in H. now apply H.
Qed.

Lemma int_of_str_uint d :
  int_of_str (NilZero.string_of_uint d) = Ok (Z.of_N (Pos.of_uint d)).
Proof.
  rewrite <- uint_value_0.
  unfold int_of_str, NilZero.string_of_uint.
  destruct d; [reflexivity | ..].
  all: rewrite (strip_no_space _ (uint_no_space _)).
  all: cbn [NilEmpty.string_of_uint list_ascii_of_string].
  all: cbn -[list_ascii_of_string NilEmpty.string_of_uint uint_value].
  all: match goal with
       | |- context [digit_of ?c] =>
           let v := eval vm_compute in (digit_of c) in
           change (digit_of c) with v
       end.
  all: cbv beta iota.
  all: rewrite digits_of_uint; reflexivity.
Qed.

Lemma int_of_str_neg_uint d :
  int_of_str (String "-" (NilZero.string_of_uint d))
  = Ok (- Z.of_N (Pos.of_uint d))%Z.
Proof.
  rewrite <- uint_value_0.
  unfold int_of_str, NilZero.string_of_uint.
  destruct d; [reflexivity | ..].
  all: rewrite strip_no_space
    by (cbn [list_ascii_of_string forallb]; now rewrite uint_no_space).
  all: cbn [NilEmpty.string_of_uint list_ascii_of_string].
  all: cbn -[list_ascii_of_string NilEmpty.string_of_uint uint_value Z.opp].
  all: match goal with
       | |- context [digit_of ?c] =>
           let v := eval vm_compute in (digit_of c) in
           change (digit_of c) with v
       end.
  all: cbv beta iota.
  all: rewrite digits_of_uint; reflexivity.
Qed.

(** [int(str(z))] is [z]. *)
Lemma int_of_str_of_Z z : int_of_str (str_of_Z z) = Ok z.
Proof.
  unfold str_of_Z, NilZero.string_of_int.
  destruct z as [|p|p]; cbn [Z.to_int].
  - reflexivity.
  - now rewrite int_of_str_uint, DecimalPos.Unsigned.of_to.
  - now rewrite int_of_str_neg_uint, DecimalPos.Unsigned.of_to.
Qed.

(** X21.  Whatever integer the top-level ["estimatedResults"] field spells
    in decimal, [get_estimated_results_count] returns that integer. *)
Theorem estimated_results_count_reads_decimal w d z :
  _json (self w) = JDict d ->
  dict_get "estimatedResults" d = Some (JStr (str_of_Z z)) ->
  snd (get_estimated_results_count w) = Ok z.
Proof.
  intros Hj Hd. unfold get_estimated_results_count, lift.
  cbn -[getitem py_int]. rewrite Hj. unfold getitem. rewrite Hd.
  cbn [snd py_int]. apply int_of_str_of_Z.
Qed.

Lemma estimated_results_count_reads_decimal_witness :
  snd (get_estimated_results_count
         (parser_holding
            (JDict [("estimatedResults", JStr "-1200"); ("contents", JNull)])))
  = Ok (-1200)%Z.
Proof.
  apply (estimated_results_count_reads_decimal
           (parser_holding
              (JDict [("estimatedResults", JStr "-1200"); ("contents", JNull)]))
           [("estimatedResults", JStr "-1200"); ("contents", JNull)]
           (-1200)%Z);
    reflexivity.
Defined.

End IntOfStr.

(** ** A page of complete entries *)

Section CompletePage.
Import SearchResultsJSONParser.
Context {R : Repr}.

Lemma gen_page_entries entries :
  (forall e, In e entries ->
             _gen_dict_extract "compactVideoRenderer" (JDict e) = []) ->
  flat_map (_gen_dict_extract "compactVideoRenderer")
    (map (fun e => JDict [("compactVideoRenderer", JDict e)]) entries)
  = map JDict entries.
Proof.
  intros H. induction entries as [|e rest IH]; [reflexivity|].
  cbn [map flat_map]. rewrite IH by (intros e' He'; apply H; now right).
  rewrite gen_dict_cons, (H e) by now left. reflexivity.
Qed.

Lemma gen_results_page entries :
  (forall e, In e entries ->
             _gen_dict_extract "compactVideoRenderer" (JDict e) = []) ->
  _gen_dict_extract "compactVideoRenderer" (results_page entries)
  = map JDict entries.
Proof.
  intros H. unfold results_page.
  repeat (rewrite gen_dict_cons;
          match goal with
          | |- context [String.eqb ?a ?b] =>
              let v := eval vm_compute in (String.eqb a b) in
              change (String.eqb a b) with v
          end;
          cbn [flat_map app]).
  rewrite (gen_page_entries entries H).
  change (_gen_dict_extract "compactVideoRenderer" (JDict [])) with (@nil json).
  now rewrite !app_nil_r.
Qed.

Lemma entries_effect_complete entries :
  forallb complete_entry entries = true ->
  entries_effect (map JDict entries)
  = (readable_videos (map JDict entries), [], Ok tt)
  /\ Forall2
       (fun e v =>
          exists id,
            getitem (JDict e) (Key "videoId") = Ok id
            /\ read_video (JDict e) id = Ok v)
       entries (readable_videos (map JDict entries)).
Proof.
  induction entries as [|e rest IH]; intros H;
    [split; [reflexivity | constructor]|].
  cbn [forallb] in H. apply andb_true_iff in H as [He Hrest].
  destruct (IH Hrest) as [Heff Hall]. unfold complete_entry in He.
  apply andb_true_iff in He as [He _].
  cbn [map entries_effect readable_videos flat_map].
  fold (readable_videos (map JDict rest)). unfold entry_effect.
  destruct (getitem (JDict e) (Key "videoId")) as [id|] eqn:Eid;
    [|discriminate].
  destruct (read_video (JDict e) id) as [v|] eqn:Ev; [|discriminate].
  rewrite Heff. split; [reflexivity|].
  cbn [app]. constructor; [now exists id | exact Hall].
Qed.

(** X22.  On a results page of the shape the parser was written for,
    whatever its entries are, provided each of them has a ["videoId"] and
    every field at the path the parser reads, and holds no
    ["compactVideoRenderer"] key inside itself, [parse_video_results]
    returns normally, prints nothing, and appends one record per entry, in
    page order: the record read from that entry. *)
Theorem parse_complete_page entries w :
  forallb complete_entry entries = true ->
  Forall2
    (fun e v =>
       exists id,
         getitem (JDict e) (Key "videoId") = Ok id
         /\ read_video (JDict e) id = Ok v)
    entries (readable_videos (map JDict entries))
  /\ parse_video_results (results_page entries) w
     = (mkWorld
          (new (results_page entries)
             (_videos (self w) ++ readable_videos (map JDict entries)))
          (stdout w) (files w),
        Ok tt).
Proof.
  intros H. destruct (entries_effect_complete entries H) as [Heff Hall].
  split; [exact Hall|].
  rewrite parse_video_results_effect, gen_results_page.
  - rewrite Heff. now rewrite app_nil_r.
  - intros e He. rewrite forallb_forall in H. specialize (H e He).
    unfold complete_entry in H. apply andb_true_iff in H as [_ H].
    now destruct (_gen_dict_extract "compactVideoRenderer" (JDict e)).
Qed.

End CompletePage.

Section CompletePageInstance.
Import SearchResultsJSONParser.

Lemma parse_complete_page_witness :
  Forall2
    (fun e v =>
       exists id,
         getitem (JDict e) (Key "videoId") = Ok id
         /\ read_video (R := no_compound) (JDict e) id = Ok v)
    [video_entry "abc123"; entry_with_more]
    (readable_videos (R := no_compound)
       (map JDict [video_entry "abc123"; entry_with_more]))
  /\ parse_video_results (R := no_compound)
       (results_page [video_entry "abc123"; entry_with_more]) fresh_parser
     = (mkWorld
          (new (results_page [video_entry "abc123"; entry_with_more])
             (_videos (self fresh_parser)
              ++ readable_videos (R := no_compound)
                   (map JDict [video_entry "abc123"; entry_with_more])))
          (stdout fresh_parser) (files fresh_parser),
        Ok tt).
Proof.
  apply (parse_complete_page (R := no_compound)
           [video_entry "abc123"; entry_with_more] fresh_parser).
  reflexivity.
Defined.

End CompletePageInstance.
